(** * Summarizing / paraphrasing tool: a shallow embedding of [app.py]

    The development follows the source top to bottom: Python's string
    helpers and the four regular expressions the program uses, the sentence
    splitter, the frequency summarizer, the synonym resolver with its random
    source, the paraphraser and the two JSON endpoints.  Theorems come after
    the definitions.

    Conventions.
    - A text is a [string]; each character stands for one code point in
      U+0000..U+00FF and the character classes are Python's ([str.isspace],
      the [\w] class of [re], [str.lower]) restricted to that range.
    - Python [int] is [Z]; Python [float] is the kernel's binary64 [float];
      the power [**] of two floats, which the interpreter computes with
      the function [pow] of the C library, is a parameter.
    - A [dict] is an association list in insertion order with unique keys;
      a [set] that is only tested for membership is a list.  The module
      [Run] has the same summarizer with the order of the [dict] and of the
      [set] left to the process.
    - Code that can raise returns an [option]; code that draws random numbers
      threads an explicit [rng]. *)

From Stdlib Require Import Bool Arith ZArith NArith Lia List.
From Stdlib Require Import Ascii String Permutation.
From Stdlib Require Import Floats.
Import ListNotations.

Set Warnings "-inexact-float,-register-all".

Local Open Scope string_scope.
Local Open Scope list_scope.

(** ** Characters *)

Module Char.

Definition code (c : ascii) : N := N_of_ascii c.

Definition between (lo hi : N) (c : ascii) : bool :=
  (lo <=? code c)%N && (code c <=? hi)%N.

Definition is_code (n : N) (c : ascii) : bool := (code c =? n)%N.

(** [str.isspace] on one character, which is also the class [\s] of [re]
    for [str] patterns: TAB..CR, FS..US, space, NEL and NBSP. *)
Definition isspace (c : ascii) : bool :=
  between 9 13 c || between 28 32 c || is_code 133 c || is_code 160 c.

Definition ascii_upper (c : ascii) : bool := between 65 90 c.
Definition ascii_lower (c : ascii) : bool := between 97 122 c.
Definition ascii_digit (c : ascii) : bool := between 48 57 c.

(** Upper-case letters of the Latin-1 supplement: U+00C0..U+00DE but the
    multiplication sign U+00D7. *)
Definition latin_upper (c : ascii) : bool :=
  between 192 214 c || between 216 222 c.

(** Lower-case letters of the supplement that have an upper-case partner in
    the range: U+00E0..U+00FE but the division sign U+00F7. *)
Definition latin_lower (c : ascii) : bool :=
  between 224 246 c || between 248 254 c.

(** [str.isalnum] on one character: letters, and the characters with a
    decimal, digit or numeric value (superscripts and vulgar fractions). *)
Definition isalnum (c : ascii) : bool :=
  ascii_upper c || ascii_lower c || ascii_digit c
  || is_code 170 c || is_code 178 c || is_code 179 c || is_code 181 c
  || is_code 185 c || is_code 186 c || between 188 190 c
  || between 192 214 c || between 216 246 c || between 248 255 c.

(** The class [\w]: alphanumeric or underscore. *)
Definition isword (c : ascii) : bool := isalnum c || is_code 95 c.

(** [str.isupper] on one character. *)
Definition isupper (c : ascii) : bool := ascii_upper c || latin_upper c.

Definition shift (d : Z) (c : ascii) : ascii :=
  ascii_of_N (Z.to_N (Z.of_N (code c) + d)).

(** [str.lower] on one character. *)
Definition lower (c : ascii) : ascii :=
  if isupper c then shift 32 c else c.

(** Upper-casing of one character, where the result stays in the range.
    (U+00B5 and U+00FF have their upper-case forms outside U+00FF, and the
    sharp s is handled by [Str.capitalize].) *)
Definition upper (c : ascii) : ascii :=
  if ascii_lower c || latin_lower c then shift (-32) c else c.

(** The characters of the lookbehind [[.!?]]. *)
Definition is_terminator (c : ascii) : bool :=
  is_code 46 c || is_code 33 c || is_code 63 c.

End Char.

(** ** Strings *)

Module Str.

Definition is_empty (s : string) : bool :=
  match s with EmptyString => true | String _ _ => false end.

Fixpoint map (f : ascii -> ascii) (s : string) : string :=
  match s with
  | EmptyString => EmptyString
  | String c r => String (f c) (map f r)
  end.

(** [s.lower()] *)
Definition lower (s : string) : string := map Char.lower s.

Fixpoint lstrip (s : string) : string :=
  match s with
  | EmptyString => EmptyString
  | String c r => if Char.isspace c then lstrip r else s
  end.

Fixpoint rstrip (s : string) : string :=
  match s with
  | EmptyString => EmptyString
  | String c r =>
      let r' := rstrip r in
      if Char.isspace c && is_empty r' then EmptyString else String c r'
  end.

(** [s.strip()] *)
Definition strip (s : string) : string := rstrip (lstrip s).

Definition first (s : string) : option ascii :=
  match s with EmptyString => None | String c _ => Some c end.

Fixpoint last (s : string) : option ascii :=
  match s with
  | EmptyString => None
  | String c r => match last r with None => Some c | Some d => Some d end
  end.

(** [sep.join(parts)] *)
Fixpoint join (sep : string) (parts : list string) : string :=
  match parts with
  | [] => EmptyString
  | [p] => p
  | p :: ps => p ++ sep ++ join sep ps
  end.

(** ["".join(parts)] *)
Fixpoint concat (parts : list string) : string :=
  match parts with
  | [] => EmptyString
  | p :: ps => p ++ concat ps
  end.

(** [s.endswith(suffix)] *)
Definition endswith (s suffix : string) : bool :=
  let n := String.length s in
  let m := String.length suffix in
  (m <=? n)%nat && String.eqb (substring (n - m) m s) suffix.

(** [s[:-n]] for a positive [n]. *)
Definition drop_last (n : nat) (s : string) : string :=
  substring 0 (String.length s - n) s.

(** [c in s] for a one-character [c]. *)
Fixpoint contains (c : ascii) (s : string) : bool :=
  match s with
  | EmptyString => false
  | String d r => Ascii.eqb c d || contains c r
  end.

(** [s.replace(a, b)] for one-character [a] and [b]. *)
Definition replace (a b : ascii) (s : string) : string :=
  map (fun c => if Ascii.eqb c a then b else c) s.

(** [s.capitalize()]: the first character in title case, the others in
    lower case.  The sharp s (U+00DF) has the two-character title case
    ["Ss"].  For a first character U+00B5 or U+00FF Python's result starts
    with a character outside the range (U+039C, U+0178); here the character
    is kept, so the result is Python's for every other first character. *)
Definition capitalize (s : string) : string :=
  match s with
  | EmptyString => EmptyString
  | String c r =>
      if Char.is_code 223 c then String "S" (String "s" (lower r))
      else String (Char.upper c) (lower r)
  end.

(** Membership of a string in a list of strings ([s in some_set]). *)
Definition mem (s : string) (l : list string) : bool :=
  existsb (String.eqb s) l.

End Str.

(** ** The regular expressions of the program *)

Module Re.

(** State of the scan for [(?<=[.!?])\s+]: inside a piece, remembering
    whether the previous character was a terminator, or inside a matched
    run of white space. *)
Inductive scan : Type :=
| Piece (after_terminator : bool)
| Separator.

Definition push (c : ascii) (pieces : list string) : list string :=
  match pieces with
  | [] => [String c EmptyString]
  | p :: ps => String c p :: ps
  end.

(** [re.split(r'(?<=[.!?])\s+', s)].  A match starts at a white-space
    character that follows a terminator and extends over the whole run of
    white space; the pieces are what lies between the matches.  The head of
    the result is the piece under construction. *)
Fixpoint split_scan (st : scan) (s : string) : list string :=
  match s with
  | EmptyString => [EmptyString]
  | String c r =>
      match st with
      | Piece after =>
          if after && Char.isspace c
          then EmptyString :: split_scan Separator r
          else push c (split_scan (Piece (Char.is_terminator c)) r)
      | Separator =>
          if Char.isspace c
          then split_scan Separator r
          else push c (split_scan (Piece (Char.is_terminator c)) r)
      end
  end.

Definition split_after_terminator (s : string) : list string :=
  split_scan (Piece false) s.

Definition cons_nonempty (w : string) (ws : list string) : list string :=
  if Str.is_empty w then ws else w :: ws.

(** The maximal runs of word characters of [s]: the run that starts at the
    head of [s] (possibly empty) and the runs after it. *)
Fixpoint word_runs (s : string) : string * list string :=
  match s with
  | EmptyString => (EmptyString, [])
  | String c r =>
      let (w, ws) := word_runs r in
      if Char.isword c then (String c w, ws)
      else (EmptyString, cons_nonempty w ws)
  end.

(** [re.findall(r'\w+', s)] *)
Definition findall_words (s : string) : list string :=
  let (w, ws) := word_runs s in cons_nonempty w ws.

Definition head_isword (t : string) : bool :=
  match t with EmptyString => false | String c _ => Char.isword c end.

(** [re.findall(r"\w+|\W+", s)]: the maximal runs of word characters and of
    other characters, alternating. *)
Fixpoint findall_tokens (s : string) : list string :=
  match s with
  | EmptyString => []
  | String c r =>
      match findall_tokens r with
      | [] => [String c EmptyString]
      | t :: ts =>
          if Bool.eqb (Char.isword c) (head_isword t)
          then String c t :: ts
          else String c EmptyString :: t :: ts
      end
  end.

(** What is left of [s] after its longest prefix of word characters. *)
Fixpoint after_word_prefix (s : string) : string :=
  match s with
  | EmptyString => EmptyString
  | String c r => if Char.isword c then after_word_prefix r else s
  end.

(** [re.match(r'^\w+$', t)] as a truth value: at least one word character,
    then the end of [t]; [$] also matches just before a final newline. *)
Definition match_word (t : string) : bool :=
  head_isword t
  && let rest := after_word_prefix t in
     Str.is_empty rest || String.eqb rest (String "010" EmptyString).

End Re.

(** ** Sentence splitter *)

(** [split_sentences(text)], lines 43-48. *)
Definition split_sentences (text : string) : list string :=
  let text := Str.strip text in
  let sentences := Re.split_after_terminator text in
  List.map Str.strip
    (List.filter (fun s => negb (Str.is_empty (Str.strip s))) sentences).

(** ** Python values used by the summarizer *)

Module Dict.
Section Dict.
Context {V : Type}.

Definition t : Type := list (string * V).

(** [d.get(k)] *)
Fixpoint get (d : t) (k : string) : option V :=
  match d with
  | [] => None
  | (k', v) :: d' => if String.eqb k k' then Some v else get d' k
  end.

(** [d.get(k, default)] *)
Definition get_default (d : t) (k : string) (default : V) : V :=
  match get d k with Some v => v | None => default end.

(** [d[k] = v]: the value of an existing key is replaced in place, a new
    key goes to the end. *)
Fixpoint set (k : string) (v : V) (d : t) : t :=
  match d with
  | [] => [(k, v)]
  | (k', v') :: d' =>
      if String.eqb k k' then (k', v) :: d' else (k', v') :: set k v d'
  end.

Definition keys (d : t) : list string := List.map fst d.
Definition values (d : t) : list V := List.map snd d.
End Dict.

(** [for k in d: d[k] = f(d[k])] *)
Definition map_values {V W : Type} (f : V -> W) (d : @t V) : @t W :=
  List.map (fun kv => (fst kv, f (snd kv))) d.

End Dict.

Module Py.

(** [float(n)] for an [int] [n]: the nearest binary64 value. *)
Definition float_of_int (n : Z) : float :=
  SF2Prim (binary_normalize prec emax n 0 false).

(** [a / b] for two [int]s (true division), as the quotient of the
    converted operands; the two agree while both are below 2^53. *)
Definition true_div (a b : Z) : float :=
  PrimFloat.div (float_of_int a) (float_of_int b).

(** [n ** 0.5] for an [int] [n]: [n] is converted to a [float] and raised
    to the power 0.5.  The power [x ** y] of two floats, [pow] here, is the
    interpreter's, which computes it with the function [pow] of the C
    library; it is not part of the program and is not specified to the last
    bit (it need not round as the square root does), so it is taken as a
    parameter. *)
Definition pow_half (pow : float -> float -> float) (n : Z) : float :=
  pow (float_of_int n) 0.5%float.

(** [math.ceil(x)]: the least integer not below [x]; [None] stands for the
    [ValueError] on a NaN and the [OverflowError] on an infinity. *)
Definition ceil (x : float) : option Z :=
  match Prim2SF x with
  | S754_zero _ => Some 0%Z
  | S754_finite sign m e =>
      let v := if sign then Z.neg m else Z.pos m in
      Some (if (0 <=? e)%Z then v * 2 ^ e else - ((- v) / 2 ^ (- e)))%Z
  | S754_infinity _ => None
  | S754_nan => None
  end.

(** [max(l)] for a non-empty list of [int]s ([ValueError] on the empty one). *)
Definition max (l : list Z) : option Z :=
  match l with
  | [] => None
  | x :: xs => Some (fold_left Z.max xs x)
  end.

(** [l[:k]]: the first [k] items, and for a negative [k] all but the last
    [-k]. *)
Definition slice_to {A : Type} (k : Z) (l : list A) : list A :=
  if (0 <=? k)%Z then firstn (Z.to_nat k) l
  else firstn (List.length l - Z.to_nat (- k)) l.

(** [sorted(l, key=lambda x: x[1], reverse=True)]: descending by the second
    component, compared with [<]; items with equal keys keep their order. *)
Fixpoint insert_desc {A : Type} (x : A * float) (l : list (A * float))
  : list (A * float) :=
  match l with
  | [] => [x]
  | y :: ys =>
      if PrimFloat.ltb (snd x) (snd y) then y :: insert_desc x ys
      else x :: y :: ys
  end.

Definition sorted_desc {A : Type} (l : list (A * float)) : list (A * float) :=
  fold_right insert_desc [] l.

End Py.

(** ** Summarizer *)

(** [STOPWORDS], lines 19-22. *)
Definition STOPWORDS : list string :=
  ["the";"and";"is";"in";"it";"of";"to";"a";"an";"that";"this";"on";"for";
   "with";"as";"are";"was";"were";"by";"be";"or";"from";"at";"which";"but";
   "not";"have";"has";"had";"they";"you";"we";"he";"she";"his";"her"].

(** The loop of lines 58-61: one step per word. *)
Definition count_word (freqs : @Dict.t Z) (w : string) : @Dict.t Z :=
  if Str.mem w STOPWORDS then freqs
  else Dict.set w (Dict.get_default freqs w 0 + 1)%Z freqs.

Definition count_words (words : list string) : @Dict.t Z :=
  fold_left count_word words [].

Section FrequencyTable.
(** The table is written over any number type with a division of two
    [int]s; the program's is Python's binary64 division, [Py.true_div]. *)
Context {num : Type} (int_div : Z -> Z -> num).

(** Lines 64-67: every count divided by the largest one. *)
Definition normalize (freqs : @Dict.t Z) : @Dict.t num :=
  match Py.max (Dict.values freqs) with
  | Some maxf => Dict.map_values (fun c => int_div c maxf) freqs
  | None => []
  end.

(** Lines 57-67: the normalized word frequencies of [text]. *)
Definition word_freqs (text : string) : @Dict.t num :=
  normalize (count_words (Re.findall_words (Str.lower text))).
End FrequencyTable.

(** Lines 72-77: the score of one sentence against the table [freqs]. *)
Definition sentence_score (pow : float -> float -> float)
  (freqs : @Dict.t float) (s : string) : float :=
  let s_words := Re.findall_words (Str.lower s) in
  let score :=
    fold_left (fun score w => PrimFloat.add score (Dict.get_default freqs w 0%float))
              s_words 0%float in
  match s_words with
  | [] => 0%float
  | _ :: _ => PrimFloat.div score (Py.pow_half pow (Z.of_nat (List.length s_words)))
  end.

(** Lines 56-78: the list [sent_scores]. *)
Definition sent_scores (pow : float -> float -> float) (text : string)
  (sentences : list string) : list (string * float) :=
  let freqs := word_freqs Py.true_div text in
  List.map (fun s => (s, sentence_score pow freqs s)) sentences.

(** Lines 81-82: the number [k] of sentences to keep. *)
Definition keep_count (n : nat) (ratio : float) (min_sentences : Z)
  : option Z :=
  match Py.ceil (PrimFloat.mul (Py.float_of_int (Z.of_nat n)) ratio) with
  | Some c => Some (Z.min (Z.max min_sentences c) (Z.of_nat n))
  | None => None
  end.

(** [summarize_text(text, ratio, min_sentences)], lines 51-88; [None] when
    [math.ceil] raises. *)
Definition summarize_text (pow : float -> float -> float) (text : string)
  (ratio : float) (min_sentences : Z) : option (list string) :=
  let sentences := split_sentences text in
  if (Z.of_nat (List.length sentences) <=? min_sentences)%Z then Some sentences
  else
    let scores := sent_scores pow text sentences in
    match keep_count (List.length sentences) ratio min_sentences with
    | None => None
    | Some k =>
        let top_sentences := Py.slice_to k (Py.sorted_desc scores) in
        let chosen := List.map fst top_sentences in
        Some (List.filter (fun s => Str.mem s chosen) sentences)
    end.

(** The default arguments [ratio=0.3] and [min_sentences=1]. *)
Definition default_ratio : float := 0.3%float.
Definition default_min_sentences : Z := 1%Z.

(** ** The random source *)

Module Rand.

(** The state of Python's [random] module, as far as the program can
    observe it: the floats that [random.random()] will return, the raw
    integers behind [randbelow], and the number of draws made so far. *)
Record rng : Type := mkRng {
  uniform : nat -> float;
  raw : nat -> nat;
  tick : nat
}.

Definition step (g : rng) : rng :=
  mkRng (uniform g) (raw g) (S (tick g)).

(** Computations that draw random numbers and may raise. *)
Definition M (A : Type) : Type := rng -> option A * rng.

Definition ret {A : Type} (a : A) : M A := fun g => (Some a, g).

Definition raise {A : Type} : M A := fun g => (None, g).

Definition bind {A B : Type} (c : M A) (k : A -> M B) : M B :=
  fun g =>
    match c g with
    | (Some a, g') => k a g'
    | (None, g') => (None, g')
    end.

(** [random.random()] *)
Definition random : M float := fun g => (Some (uniform g (tick g)), step g).

(** [randbelow(n)] for a positive [n]. *)
Definition randbelow (n : nat) : M nat :=
  fun g => (Some (raw g (tick g) mod n)%nat, step g).

(** [random.choice(seq)]; [IndexError] on an empty sequence. *)
Definition choice {A : Type} (seq : list A) : M A :=
  match seq with
  | [] => raise
  | _ :: _ =>
      bind (randbelow (List.length seq)) (fun i =>
        match nth_error seq i with
        | Some a => ret a
        | None => raise
        end)
  end.

Fixpoint set_nth {A : Type} (i : nat) (a : A) (l : list A) : list A :=
  match l, i with
  | [], _ => []
  | _ :: r, O => a :: r
  | b :: r, S i' => b :: set_nth i' a r
  end.

(** [x[i], x[j] = x[j], x[i]] *)
Definition swap {A : Type} (i j : nat) (x : list A) : list A :=
  match nth_error x i, nth_error x j with
  | Some a, Some b => set_nth j a (set_nth i b x)
  | _, _ => x
  end.

(** The loop of [random.shuffle]: [for i in reversed(range(1, len(x)))],
    entered with the largest index. *)
Fixpoint shuffle_from {A : Type} (i : nat) (x : list A) : M (list A) :=
  match i with
  | O => ret x
  | S i' => bind (randbelow (S i)) (fun j => shuffle_from i' (swap i j x))
  end.

(** [random.shuffle(x)] *)
Definition shuffle {A : Type} (x : list A) : M (list A) :=
  shuffle_from (List.length x - 1) x.

(** [[f(a) for a in l]] with the draws made from left to right. *)
Fixpoint mapM {A B : Type} (f : A -> M B) (l : list A) : M (list B) :=
  match l with
  | [] => ret []
  | a :: r => bind (f a) (fun b => bind (mapM f r) (fun bs => ret (b :: bs)))
  end.

End Rand.

Notation "x <- c ;; k" := (Rand.bind c (fun x => k))
  (at level 61, c at next level, right associativity).

(** ** Synonym resolver *)

(** [FALLBACK_SYNS], lines 25-40. *)
Definition FALLBACK_SYNS : @Dict.t (list string) :=
  [("good", ["great";"nice";"excellent";"solid"]);
   ("bad", ["poor";"subpar";"weak"]);
   ("important", ["crucial";"vital";"key"]);
   ("use", ["utilize";"employ";"apply"]);
   ("help", ["assist";"aid";"support"]);
   ("show", ["display";"present";"reveal"]);
   ("change", ["modify";"alter";"transform"]);
   ("make", ["create";"produce";"build"]);
   ("need", ["require";"necessitate"]);
   ("find", ["discover";"locate"]);
   ("get", ["obtain";"acquire"]);
   ("big", ["large";"substantial";"considerable"]);
   ("small", ["tiny";"compact";"minor"]);
   ("start", ["begin";"commence";"initiate"])].

(** The optional lexical database: the flag [USE_NLTK] set by the import of
    lines 7-14, and [wn.synsets] as a function from a word to the lemma
    names of its synsets, [None] when the lookup raises (the WordNet data
    is missing). *)
Record wordnet : Type := mkWordnet {
  USE_NLTK : bool;
  synsets : string -> option (list (list string))
}.

(** [lemma.name().replace('_',' ')] *)
Definition lemma_name (raw : string) : string := Str.replace "_" " " raw.

(** The test of line 130. *)
Definition other_single_token (word name : string) : bool :=
  negb (String.eqb (Str.lower name) word) && negb (Str.contains " " name).

(** Lines 123-140: the answer of WordNet, [None] when the program falls
    through to the fallback (no WordNet, no synset, or an exception, which
    the [try] swallows). *)
Definition wordnet_synonym (wn : wordnet) (word : string) : option string :=
  if USE_NLTK wn then
    match synsets wn word with
    | None => None
    | Some syns =>
        match List.find (other_single_token word)
                        (List.map lemma_name (List.concat syns)) with
        | Some name => Some name
        | None =>
            match syns with
            | (first_lemma :: _) :: _ => Some (lemma_name first_lemma)
            | _ => None
            end
        end
    end
  else None.

(** [synonym_for(word)], lines 121-148. *)
Definition synonym_for (wn : wordnet) (word : string) : Rand.M string :=
  match wordnet_synonym wn word with
  | Some name => Rand.ret name
  | None =>
      match Dict.get FALLBACK_SYNS (Str.lower word) with
      | Some syns => Rand.choice syns
      | None =>
          if Str.endswith word "ing" && (4 <? String.length word)%nat
          then Rand.ret (Str.drop_last 3 word)
          else Rand.ret word
      end
  end.

(** ** Paraphraser *)

(** [t[0].isupper()] *)
Definition starts_upper (t : string) : bool :=
  match t with
  | EmptyString => false
  | String c _ => Char.isupper c
  end.

(** Lines 101-112: the token appended to [new_tokens] for the token [t]. *)
Definition paraphrase_token (wn : wordnet) (strength : float) (t : string)
  : Rand.M string :=
  if Re.match_word t then
    r <- Rand.random ;;
    if PrimFloat.ltb r strength then
      candidate <- synonym_for wn (Str.lower t) ;;
      Rand.ret (if starts_upper t then Str.capitalize candidate else candidate)
    else Rand.ret t
  else Rand.ret t.

(** Lines 98-113: the paraphrase of one sentence. *)
Definition paraphrase_sentence (wn : wordnet) (strength : float) (s : string)
  : Rand.M string :=
  new_tokens <- Rand.mapM (paraphrase_token wn strength) (Re.findall_tokens s) ;;
  Rand.ret (Str.concat new_tokens).

(** Lines 116-118: the occasional reordering. *)
Definition maybe_shuffle (strength : float) (paraphrased : list string)
  : Rand.M (list string) :=
  if (1 <? List.length paraphrased)%nat then
    r <- Rand.random ;;
    if PrimFloat.ltb r (PrimFloat.mul 0.2%float strength)
    then Rand.shuffle paraphrased
    else Rand.ret paraphrased
  else Rand.ret paraphrased.

(** [paraphrase_text(text, strength)], lines 91-119. *)
Definition paraphrase_text (wn : wordnet) (text : string) (strength : float)
  : Rand.M string :=
  paraphrased <- Rand.mapM (paraphrase_sentence wn strength)
                           (split_sentences text) ;;
  paraphrased <- maybe_shuffle strength paraphrased ;;
  Rand.ret (Str.join " " paraphrased).

(** The default argument [strength=0.3]. *)
Definition default_strength : float := 0.3%float.

(** ** The summarizer inside a process *)

(** The same lines 51-88 with what a run can see beyond its arguments made
    explicit, and passed through the call. *)
Module Run.

(** The state of the [random] module, and the two orders that depend on
    the process (the hash seed, the version of the interpreter): that in
    which a [set] of strings holds the items it was built from, and that in
    which a [dict] hands out its entries when it is iterated. *)
Record world : Type := mkWorld {
  random_state : Rand.rng;
  set_order : list string -> list string;
  dict_order : @Dict.t Z -> @Dict.t Z
}.

(** What every process guarantees: a [set] holds the items it was built
    from and no other, and the iteration of a [dict] visits every entry
    once. *)
Definition sound (w : world) : Prop :=
  (forall items x, In x (set_order w items) <-> In x items)
  /\ (forall d, Permutation (dict_order w d) d).

(** Lines 57-67: [max(freqs.values())] and [for w in freqs] iterate over
    the dict of the counts. *)
Definition word_freqs (w : world) (text : string) : @Dict.t float :=
  normalize Py.true_div
            (dict_order w (count_words (Re.findall_words (Str.lower text)))).

(** Lines 56-78. *)
Definition sent_scores (w : world) (pow : float -> float -> float)
  (text : string) (sentences : list string) : list (string * float) :=
  let freqs := word_freqs w text in
  List.map (fun s => (s, sentence_score pow freqs s)) sentences.

(** Lines 51-88: the returned value ([None] when [math.ceil] raises) and
    the world after the call. *)
Definition summarize_text (pow : float -> float -> float) (text : string)
  (ratio : float) (min_sentences : Z) (w : world)
  : option (list string) * world :=
  let sentences := split_sentences text in
  if (Z.of_nat (List.length sentences) <=? min_sentences)%Z
  then (Some sentences, w)
  else
    let scores := sent_scores w pow text sentences in
    match keep_count (List.length sentences) ratio min_sentences with
    | None => (None, w)
    | Some k =>
        let top_sentences := Py.slice_to k (Py.sorted_desc scores) in
        let chosen := set_order w (List.map fst top_sentences) in
        (Some (List.filter (fun s => Str.mem s chosen) sentences), w)
    end.

End Run.

(** ** The two endpoints *)

(** A parsed JSON request body, the value of [request.json]; the fields
    of an object are its [dict], with unique keys. *)
Inductive json : Type :=
| JNull
| JBool (b : bool)
| JInt (n : Z)
| JFloat (x : float)
| JString (s : string)
| JArray (items : list json)
| JObject (fields : list (string * json)).

(** What a handler hands back to Flask: one of the three [jsonify] calls, or
    an uncaught exception, which Flask answers with status 500. *)
Inductive response : Type :=
| Summary (summary : string) (sentences : list string)
| Paraphrase (paraphrase : string)
| NoText
| Uncaught.

Definition status (r : response) : Z :=
  match r with
  | Summary _ _ | Paraphrase _ => 200
  | NoText => 400
  | Uncaught => 500
  end.

(** The field ["ok"] of the JSON answer, when there is one. *)
Definition ok (r : response) : option bool :=
  match r with
  | Summary _ _ | Paraphrase _ => Some true
  | NoText => Some false
  | Uncaught => None
  end.

Module Json.

(** Truth value of a parsed body, for [request.json or {}]. *)
Definition truthy (v : json) : bool :=
  match v with
  | JNull => false
  | JBool b => b
  | JInt n => negb (n =? 0)%Z
  | JFloat x => negb (PrimFloat.eqb x 0%float)
  | JString s => negb (Str.is_empty s)
  | JArray items => match items with [] => false | _ :: _ => true end
  | JObject fields => match fields with [] => false | _ :: _ => true end
  end.

(** [request.json or {}] *)
Definition data_of (body : json) : json :=
  if truthy body then body else JObject [].

(** [data.get(key, default)]; only a [dict] has the method. *)
Definition get (data : json) (key : string) (default : json) : option json :=
  match data with
  | JObject fields => Some (Dict.get_default fields key default)
  | _ => None
  end.

(** [v.strip()]; only a [str] has the method. *)
Definition strip (v : json) : option string :=
  match v with
  | JString s => Some (Str.strip s)
  | _ => None
  end.

Definition finite (x : float) : bool :=
  match Prim2SF x with
  | S754_zero _ | S754_finite _ _ _ => true
  | S754_infinity _ | S754_nan => false
  end.

(** [int(x)] for a [float]: truncation towards zero. *)
Definition trunc (x : float) : option Z :=
  match Prim2SF x with
  | S754_zero _ => Some 0%Z
  | S754_finite sign m e =>
      let v := if sign then Z.neg m else Z.pos m in
      Some (if (0 <=? e)%Z then v * 2 ^ e else Z.quot v (2 ^ (- e)))%Z
  | S754_infinity _ => None
  | S754_nan => None
  end.

Section Conversions.
(** Python's parsers of numeric strings, [float(s)] and [int(s)], are
    taken as given; [None] is their [ValueError]. *)
Variable parse_float : string -> option float.
Variable parse_int : string -> option Z.

(** [float(v)] *)
Definition to_float (v : json) : option float :=
  match v with
  | JFloat x => Some x
  | JInt n =>
      let x := Py.float_of_int n in if finite x then Some x else None
  | JBool b => Some (if b then 1%float else 0%float)
  | JString s => parse_float s
  | JNull | JArray _ | JObject _ => None
  end.

(** [int(v)] *)
Definition to_int (v : json) : option Z :=
  match v with
  | JInt n => Some n
  | JFloat x => trunc x
  | JBool b => Some (if b then 1%Z else 0%Z)
  | JString s => parse_int s
  | JNull | JArray _ | JObject _ => None
  end.
End Conversions.

End Json.

Definition obind {A B : Type} (o : option A) (k : A -> option B) : option B :=
  match o with Some a => k a | None => None end.

Section Endpoints.
Variable pow : float -> float -> float.
Variable parse_float : string -> option float.
Variable parse_int : string -> option Z.
Variable wn : wordnet.

(** Lines 156-159: the arguments read from the body, [None] when reading
    them raises. *)
Definition summarize_args (body : json) : option (string * float * Z) :=
  let data := Json.data_of body in
  obind (obind (Json.get data "text" (JString "")) Json.strip) (fun text =>
  obind (obind (Json.get data "ratio" (JFloat default_ratio))
               (Json.to_float parse_float)) (fun ratio =>
  obind (obind (Json.get data "min_sentences" (JInt default_min_sentences))
               (Json.to_int parse_int)) (fun min_sentences =>
  Some (text, ratio, min_sentences)))).

(** [api_summarize()], lines 154-164. *)
Definition api_summarize (body : json) : response :=
  match summarize_args body with
  | None => Uncaught
  | Some (text, ratio, min_sentences) =>
      if Str.is_empty text then NoText
      else
        match summarize_text pow text ratio min_sentences with
        | None => Uncaught
        | Some summary_sentences =>
            Summary (Str.join " " summary_sentences) summary_sentences
        end
  end.

(** Lines 168-170. *)
Definition paraphrase_args (body : json) : option (string * float) :=
  let data := Json.data_of body in
  obind (obind (Json.get data "text" (JString "")) Json.strip) (fun text =>
  obind (obind (Json.get data "strength" (JFloat default_strength))
               (Json.to_float parse_float)) (fun strength =>
  Some (text, strength))).

(** [api_paraphrase()], lines 166-174. *)
Definition api_paraphrase (body : json) (g : Rand.rng)
  : response * Rand.rng :=
  match paraphrase_args body with
  | None => (Uncaught, g)
  | Some (text, strength) =>
      if Str.is_empty text then (NoText, g)
      else
        match paraphrase_text wn text strength g with
        | (Some para, g') => (Paraphrase para, g')
        | (None, g') => (Uncaught, g')
        end
  end.
End Endpoints.

(** ** Specification-side notions *)

(** [subseq l1 l2]: [l1] is [l2] with some items left out, the others in
    their order. *)
Inductive subseq {A : Type} : list A -> list A -> Prop :=
| subseq_nil : subseq [] []
| subseq_skip (x : A) (l1 l2 : list A) : subseq l1 l2 -> subseq l1 (x :: l2)
| subseq_take (x : A) (l1 l2 : list A) : subseq l1 l2 -> subseq (x :: l1) (x :: l2).

Module Spec.

(** The word tokens of a text, in lower case. *)
Definition words_of (text : string) : list string :=
  Re.findall_words (Str.lower text).

Definition is_stopword (w : string) : bool := Str.mem w STOPWORDS.

(** The words that take part in the scoring. *)
Definition content_words (text : string) : list string :=
  List.filter (fun w => negb (is_stopword w)) (words_of text).

(** How often [w] occurs among the words of [text]. *)
Definition occurrences (text w : string) : Z :=
  Z.of_nat (count_occ string_dec (words_of text) w).

(** The count of the most frequent content word ([0] without any). *)
Definition max_occurrences (text : string) : Z :=
  fold_right Z.max 0%Z (List.map (occurrences text) (content_words text)).

(** The normalized frequency of [w] in [text], written from the spec:
    the occurrences of [w] over those of the most frequent content word,
    and [0] for a stopword or a word that does not occur. *)
Definition frequency (text w : string) : float :=
  if is_stopword w || (occurrences text w =? 0)%Z then 0%float
  else Py.true_div (occurrences text w) (max_occurrences text).

(** The sum of the frequencies of the words of the sentence [s]. *)
Definition frequency_sum (text s : string) : float :=
  fold_left (fun acc w => PrimFloat.add acc (frequency text w))
            (words_of s) 0%float.

(** The score as the spec words it: the sum over the number of word
    tokens of the sentence. *)
Definition length_normalized_score (text s : string) : float :=
  match words_of s with
  | [] => 0%float
  | _ :: _ =>
      PrimFloat.div (frequency_sum text s)
                    (Py.float_of_int (Z.of_nat (List.length (words_of s))))
  end.

(** The score with the power 0.5 of the number of word tokens as the
    divisor. *)
Definition root_normalized_score (pow : float -> float -> float)
  (text s : string) : float :=
  match words_of s with
  | [] => 0%float
  | _ :: _ =>
      PrimFloat.div (frequency_sum text s)
                    (pow (Py.float_of_int (Z.of_nat (List.length (words_of s))))
                         0.5%float)
  end.

(** A random source whose floats are never below zero, as those of
    [random.random()], which lie in the interval from 0 to 1. *)
Definition never_negative (g : Rand.rng) : Prop :=
  forall i, PrimFloat.ltb (Rand.uniform g i) 0%float = false.

(** WordNet cannot answer for [word]: the import failed, or the lookup
    raises because the data is missing. *)
Definition wordnet_unavailable (wn : wordnet) (word : string) : Prop :=
  USE_NLTK wn = false \/ synsets wn word = None.

(** The request carries well-typed fields for [/summarize]. *)
Definition decodes_summarize (parse_float : string -> option float)
  (parse_int : string -> option Z) (body : json)
  (text : string) (ratio : float) (min_sentences : Z) : Prop :=
  summarize_args parse_float parse_int body = Some (text, ratio, min_sentences).

(** The request carries well-typed fields for [/paraphrase]. *)
Definition decodes_paraphrase (parse_float : string -> option float)
  (body : json) (text : string) (strength : float) : Prop :=
  paraphrase_args parse_float body = Some (text, strength).

(** The answer with status 400 and ["ok": false]. *)
Definition is_error (r : response) : Prop :=
  status r = 400%Z /\ ok r = Some false.

(** The stripped text of a request, when it carries a string. *)
Definition request_text (body : json) : option string :=
  obind (Json.get (Json.data_of body) "text" (JString "")) Json.strip.

(** The answer [r] to a request with the stripped text [text] is the one
    the spec promises: the error answer exactly when the text is empty, and
    ["ok": true] for every other request. *)
Definition answers_as_claimed (text : string) (r : response) : Prop :=
  (is_error r <-> text = EmptyString)
  /\ (text <> EmptyString -> ok r = Some true).

End Spec.

(** Notions for the rounding of binary64 quotients. *)
Module Binary64.

(** The last step of [binary_round_aux]: the rounded mantissa [m] is brought
    back to 53 bits and packed with its exponent. *)
Definition pack (sx : bool) (m e : Z) : spec_float :=
  let '(mrs, e') := shr_fexp prec emax m e loc_Exact in
  match shr_m mrs with
  | Z0 => S754_zero sx
  | Zpos m =>
      if Z.leb e' (emax - prec) then S754_finite sx m e' else S754_infinity sx
  | _ => S754_nan
  end.

(** A positive value with a mantissa of 53 bits. *)
Definition normal (x : spec_float) (m : positive) (e : Z) : Prop :=
  x = S754_finite false m e /\ (2 ^ 52 <= Zpos m < 2 ^ 53)%Z.

End Binary64.

(** Concrete surroundings for the examples. *)
Module Sample.

(** No WordNet: the import of line 9 failed. *)
Definition no_wordnet : wordnet := mkWordnet false (fun _ => None).

(** WordNet installed without its data: every lookup raises. *)
Definition wordnet_without_data : wordnet := mkWordnet true (fun _ => None).

(** A random source that alternates between 0.25 and 0.75. *)
Definition rng : Rand.rng :=
  Rand.mkRng (fun i => if Nat.even i then 0.25%float else 0.75%float)
             (fun i => i) 0.

(** A float power that is the correctly rounded square root at the
    exponent 0.5, the only one the program asks for. *)
Definition pow (x y : float) : float := PrimFloat.sqrt x.

(** Parsers for clients that send numbers as JSON numbers only. *)
Definition parse_float (s : string) : option float := None.
Definition parse_int (s : string) : option Z := None.

End Sample.

(** ** Notions for the further properties *)

Module Shape.

(** The characters of [s] that are not white space, in their order. *)
Fixpoint nonspace (s : string) : string :=
  match s with
  | EmptyString => EmptyString
  | String c r => if Char.isspace c then nonspace r else String c (nonspace r)
  end.

(** [s] ends with one of the characters [.], [!] and [?]. *)
Definition ends_sentence (s : string) : bool :=
  match Str.last s with
  | Some c => Char.is_terminator c
  | None => false
  end.

(** [s] is not empty and neither starts nor ends with white space. *)
Definition tight (s : string) : bool :=
  match Str.first s, Str.last s with
  | Some c, Some d => negb (Char.isspace c) && negb (Char.isspace d)
  | _, _ => false
  end.

(** Every character of [s] satisfies [p]. *)
Fixpoint all_chars (p : ascii -> bool) (s : string) : bool :=
  match s with
  | EmptyString => true
  | String c r => p c && all_chars p r
  end.

(** [P] holds of every item of the list but the last. *)
Fixpoint all_but_last {A : Type} (P : A -> Prop) (l : list A) : Prop :=
  match l with
  | [] => True
  | x :: r => match r with [] => True | _ :: _ => P x /\ all_but_last P r end
  end.

(** Whether the scan of [re.split] stands behind a terminator after the
    string [p], when it did ([a]) or did not before it. *)
Definition after_string (a : bool) (p : string) : bool :=
  match Str.last p with Some c => Char.is_terminator c | None => a end.

End Shape.

Module Order.

(** No score of the list is a NaN. *)
Definition no_nan {A : Type} (scores : list (A * float)) : bool :=
  forallb (fun p => negb (PrimFloat.is_nan (snd p))) scores.

(** No item of the list has a score below that of an item after it. *)
Fixpoint descending {A : Type} (l : list (A * float)) : Prop :=
  match l with
  | [] => True
  | x :: r =>
      Forall (fun y => PrimFloat.ltb (snd x) (snd y) = false) r /\ descending r
  end.

(** The score the program gives the sentence [s] of [text]. *)
Definition score (pow : float -> float -> float) (text s : string) : float :=
  sentence_score pow (word_freqs Py.true_div text) s.

End Order.

(** More surroundings for the examples. *)
Module Fixture.

(** A WordNet that knows two synsets for every word. *)
Definition wordnet : wordnet :=
  mkWordnet true (fun _ => Some [["good"; "well_off"; "fine"]; ["nice"]]).

(** A random source whose floats are all 0.125 and whose raw integers
    count up from 0. *)
Definition eager_rng : Rand.rng :=
  Rand.mkRng (fun _ => 0.125%float) (fun i => i) 0.

(** A process whose sets and dicts keep the order of insertion. *)
Definition insertion_world : Run.world :=
  Run.mkWorld Sample.rng (fun items => items) (fun d => d).

(** A process with another random state, whose sets and dicts hold their
    items the other way round. *)
Definition reversed_world : Run.world :=
  Run.mkWorld eager_rng (@List.rev string) (@List.rev (string * Z)).

End Fixture.

(** * Properties *)

(** ** Stripping *)

Lemma last_none (s : string) : Str.last s = None -> s = EmptyString.
Proof.
  destruct s as [|c r]; simpl; [reflexivity|].
  destruct (Str.last r); discriminate.
Qed.

Lemma lstrip_first (s : string) (c : ascii) :
  Str.first (Str.lstrip s) = Some c -> Char.isspace c = false.
Proof.
  induction s as [|a r IH]; simpl; [discriminate|].
  destruct (Char.isspace a) eqn:Ea; [exact IH|].
  simpl. intros [= <-]. exact Ea.
Qed.

Lemma rstrip_first (s : string) (c : ascii) :
  Str.first (Str.rstrip s) = Some c -> Str.first s = Some c.
Proof.
  destruct s as [|a r]; simpl; [auto|].
  destruct (Char.isspace a && Str.is_empty (Str.rstrip r)); simpl;
    [discriminate | auto].
Qed.

Lemma rstrip_last (s : string) (c : ascii) :
  Str.last (Str.rstrip s) = Some c -> Char.isspace c = false.
Proof.
  induction s as [|a r IH]; simpl; [discriminate|].
  destruct (Char.isspace a && Str.is_empty (Str.rstrip r)) eqn:E; simpl;
    [discriminate|].
  destruct (Str.last (Str.rstrip r)) as [d|] eqn:L.
  - intros [= <-]. apply IH. reflexivity.
  - intros [= <-]. apply last_none in L. rewrite L in E. simpl in E.
    now rewrite andb_true_r in E.
Qed.

Lemma strip_first (s : string) (c : ascii) :
  Str.first (Str.strip s) = Some c -> Char.isspace c = false.
Proof. intros H. apply rstrip_first in H. now apply lstrip_first in H. Qed.

Lemma strip_last (s : string) (c : ascii) :
  Str.last (Str.strip s) = Some c -> Char.isspace c = false.
Proof. apply rstrip_last. Qed.

(** Every sentence is the stripped form of a piece whose stripped form is
    not empty. *)
Lemma split_sentences_inv (text s : string) :
  In s (split_sentences text) ->
  exists piece, s = Str.strip piece /\ Str.is_empty (Str.strip piece) = false.
Proof.
  unfold split_sentences. intros H.
  apply in_map_iff in H. destruct H as [piece [<- H]].
  apply filter_In in H. destruct H as [_ H].
  exists piece. split; [reflexivity|]. now apply negb_true_iff in H.
Qed.

(** C9: every string returned by [split_sentences] is non-empty and neither
    starts nor ends with a white-space character. *)
Theorem split_sentences_stripped (text s : string) :
  In s (split_sentences text) ->
  s <> EmptyString
  /\ (forall c, Str.first s = Some c -> Char.isspace c = false)
  /\ (forall c, Str.last s = Some c -> Char.isspace c = false).
Proof.
  intros H. apply split_sentences_inv in H. destruct H as [piece [-> Hne]].
  split; [|split].
  - intros E. rewrite E in Hne. discriminate.
  - intros c. apply strip_first.
  - intros c. apply strip_last.
Qed.

Lemma split_sentences_stripped_witness :
  In "How are you?" (split_sentences "  Hi there.  How are you? ")
  /\ "How are you?" <> EmptyString
  /\ (forall c, Str.first "How are you?" = Some c -> Char.isspace c = false)
  /\ (forall c, Str.last "How are you?" = Some c -> Char.isspace c = false).
Proof.
  assert (H : In "How are you?" (split_sentences "  Hi there.  How are you? "))
    by (vm_compute; auto).
  split; [exact H|].
  exact (split_sentences_stripped "  Hi there.  How are you? " "How are you?" H).
Defined.

(** ** The summary as a selection of the sentences *)

Lemma subseq_refl {A : Type} (l : list A) : subseq l l.
Proof. induction l; constructor; assumption. Qed.

Lemma subseq_filter {A : Type} (f : A -> bool) (l : list A) :
  subseq (List.filter f l) l.
Proof.
  induction l as [|x l IH]; simpl; [constructor|].
  destruct (f x); constructor; assumption.
Qed.

Lemma subseq_In {A : Type} (l1 l2 : list A) :
  subseq l1 l2 -> forall x, In x l1 -> In x l2.
Proof.
  induction 1; simpl; intros y Hy; auto.
  destruct Hy as [-> | Hy]; auto.
Qed.

(** C2: whatever the text, the ratio and the minimum, the list returned by
    [summarize_text] is a subsequence of the sentences of the text: each of
    its items is one of them, and they come in the order of the text. *)
Theorem summarize_text_subseq (pow : float -> float -> float)
  (text : string) (ratio : float)
  (min_sentences : Z) (summary : list string) :
  summarize_text pow text ratio min_sentences = Some summary ->
  subseq summary (split_sentences text)
  /\ forall s, In s summary -> In s (split_sentences text).
Proof.
  intros H.
  assert (S : subseq summary (split_sentences text)).
  { unfold summarize_text in H.
    destruct (Z.of_nat (List.length (split_sentences text)) <=? min_sentences)%Z.
    - injection H as <-. apply subseq_refl.
    - destruct (keep_count _ ratio min_sentences); [|discriminate].
      injection H as <-. apply subseq_filter. }
  split; [exact S | exact (subseq_In _ _ S)].
Qed.

Lemma summarize_text_subseq_witness :
  summarize_text Sample.pow "The cat sat. The cat ran away. Dogs bark." default_ratio 1
    = Some ["The cat ran away."]
  /\ subseq ["The cat ran away."]
            (split_sentences "The cat sat. The cat ran away. Dogs bark.")
  /\ forall s, In s ["The cat ran away."] ->
               In s (split_sentences "The cat sat. The cat ran away. Dogs bark.").
Proof.
  assert (H : summarize_text Sample.pow "The cat sat. The cat ran away. Dogs bark."
                default_ratio 1 = Some ["The cat ran away."])
    by (vm_compute; reflexivity).
  split; [exact H|].
  exact (summarize_text_subseq Sample.pow _ _ _ _ H).
Defined.

(** C8: a text with at most [min_sentences] sentences is returned whole,
    sentence for sentence. *)
Theorem summarize_text_short (pow : float -> float -> float)
  (text : string) (ratio : float)
  (min_sentences : Z) :
  (Z.of_nat (List.length (split_sentences text)) <= min_sentences)%Z ->
  summarize_text pow text ratio min_sentences = Some (split_sentences text).
Proof.
  intros H. unfold summarize_text.
  apply Z.leb_le in H. now rewrite H.
Qed.

Lemma summarize_text_short_witness :
  (Z.of_nat (List.length (split_sentences "One. Two.")) <= 2)%Z
  /\ summarize_text Sample.pow "One. Two." default_ratio 2
     = Some (split_sentences "One. Two.").
Proof.
  assert (H : (Z.of_nat (List.length (split_sentences "One. Two.")) <= 2)%Z)
    by (vm_compute; discriminate).
  split; [exact H|].
  exact (summarize_text_short Sample.pow "One. Two." default_ratio 2 H).
Defined.

(** ** The size of the summary *)

Lemma mem_In (s : string) (l : list string) : Str.mem s l = true <-> In s l.
Proof.
  unfold Str.mem. rewrite existsb_exists. split.
  - intros [x [Hx E]]. apply String.eqb_eq in E. now subst.
  - intros H. exists s. split; [exact H | apply String.eqb_refl].
Qed.

Lemma insert_desc_perm {A : Type} (x : A * float) (l : list (A * float)) :
  Permutation (x :: l) (Py.insert_desc x l).
Proof.
  induction l as [|y l IH]; simpl; [reflexivity|].
  destruct (PrimFloat.ltb (snd x) (snd y)); [|reflexivity].
  rewrite perm_swap. now apply perm_skip.
Qed.

Lemma sorted_desc_perm {A : Type} (l : list (A * float)) :
  Permutation l (Py.sorted_desc l).
Proof.
  induction l as [|x l IH]; simpl; [reflexivity|].
  rewrite <- insert_desc_perm. now apply perm_skip.
Qed.

Lemma sent_scores_fst (pow : float -> float -> float)
  (text : string) (sentences : list string) :
  List.map fst (sent_scores pow text sentences) = sentences.
Proof.
  unfold sent_scores. rewrite map_map. simpl. apply map_id.
Qed.

Lemma NoDup_firstn {A : Type} (n : nat) (l : list A) :
  NoDup l -> NoDup (firstn n l).
Proof.
  intros H. rewrite <- (firstn_skipn n l) in H.
  now apply NoDup_app_remove_r in H.
Qed.

Lemma In_firstn {A : Type} (n : nat) (l : list A) (x : A) :
  In x (firstn n l) -> In x l.
Proof.
  intros H. rewrite <- (firstn_skipn n l). apply in_or_app. now left.
Qed.

(** Keeping the sentences that are among the first [n] of a rearrangement
    keeps [n] of them, as long as no sentence occurs twice. *)
Lemma filter_firstn_length (n : nat) (l p : list string) :
  NoDup l -> Permutation l p -> (n <= List.length l)%nat ->
  List.length (List.filter (fun s => Str.mem s (firstn n p)) l) = n.
Proof.
  intros Hl Hp Hn.
  assert (Hpn : NoDup p) by exact (Permutation_NoDup Hp Hl).
  assert (P : Permutation (List.filter (fun s => Str.mem s (firstn n p)) l)
                          (firstn n p)).
  { apply NoDup_Permutation.
    - now apply NoDup_filter.
    - now apply NoDup_firstn.
    - intros x. rewrite filter_In, mem_In. split; [tauto|].
      intros H. split; [|exact H].
      apply In_firstn in H. symmetry in Hp. exact (Permutation_in _ Hp H). }
  rewrite (Permutation_length P), length_firstn.
  rewrite <- (Permutation_length Hp). lia.
Qed.

Lemma keep_count_le (n : nat) (ratio : float) (min_sentences k : Z) :
  keep_count n ratio min_sentences = Some k -> (k <= Z.of_nat n)%Z.
Proof.
  unfold keep_count. destruct (Py.ceil _); [|discriminate].
  intros [= <-]. lia.
Qed.

(** With pairwise distinct sentences, more of them than [min_sentences] and
    a count [k] that is not negative, the summary has exactly [k]
    sentences. *)
Lemma summarize_text_count_distinct (pow : float -> float -> float)
  (text : string) (ratio : float)
  (min_sentences k : Z) :
  NoDup (split_sentences text) ->
  (min_sentences < Z.of_nat (List.length (split_sentences text)))%Z ->
  keep_count (List.length (split_sentences text)) ratio min_sentences = Some k ->
  (0 <= k)%Z ->
  exists summary,
    summarize_text pow text ratio min_sentences = Some summary
    /\ Z.of_nat (List.length summary) = k.
Proof.
  intros Hnd Hlt Hk Hpos. unfold summarize_text.
  apply Z.leb_gt in Hlt. rewrite Hlt, Hk.
  eexists. split; [reflexivity|].
  unfold Py.slice_to. apply Z.leb_le in Hpos as Hb. rewrite Hb.
  rewrite <- firstn_map.
  rewrite filter_firstn_length.
  - now apply Z2Nat.id.
  - exact Hnd.
  - rewrite <- (sent_scores_fst pow text (split_sentences text)) at 1.
    apply Permutation_map, sorted_desc_perm.
  - apply keep_count_le in Hk. lia.
Qed.

(** C3, at a text that repeats a sentence: two sentences, one to keep, and
    both are returned, whatever the float power is. *)
Theorem summarize_text_repeated_sentence (pow : float -> float -> float) :
  split_sentences "Hi. Hi." = ["Hi."; "Hi."]
  /\ keep_count 2 default_ratio default_min_sentences = Some 1%Z
  /\ summarize_text pow "Hi. Hi." default_ratio default_min_sentences
     = Some ["Hi."; "Hi."].
Proof.
  split; [vm_compute; reflexivity|].
  split; [vm_compute; reflexivity|].
  unfold summarize_text.
  replace (split_sentences "Hi. Hi.") with ["Hi."; "Hi."]
    by (vm_compute; reflexivity).
  replace (keep_count _ _ _) with (Some 1%Z) by (vm_compute; reflexivity).
  cbv beta iota zeta delta
    [List.length Z.of_nat default_min_sentences Z.leb Z.compare Pos.compare
     Pos.compare_cont Pos.of_succ_nat Pos.succ].
  unfold sent_scores. cbn [List.map].
  generalize (sentence_score pow (word_freqs Py.true_div "Hi. Hi.") "Hi.").
  intros x. unfold Py.sorted_desc. cbn [fold_right Py.insert_desc snd].
  destruct (PrimFloat.ltb x x); reflexivity.
Qed.

(** ** Dictionaries *)

Section DictFacts.
Context {V : Type}.
Implicit Types (d : @Dict.t V) (k : string) (v : V).

Lemma get_set d k v k' :
  Dict.get (Dict.set k v d) k' = if String.eqb k' k then Some v else Dict.get d k'.
Proof.
  induction d as [|[k0 v0] d IH]; simpl.
  - reflexivity.
  - destruct (String.eqb_spec k k0) as [->|Hk]; simpl.
    + destruct (String.eqb k' k0); reflexivity.
    + rewrite IH. destruct (String.eqb_spec k' k0) as [->|Hk'].
      * apply String.eqb_neq in Hk. rewrite String.eqb_sym in Hk.
        now rewrite Hk.
      * reflexivity.
Qed.

Lemma get_None_keys d k : Dict.get d k = None <-> ~ In k (Dict.keys d).
Proof.
  induction d as [|[k0 v0] d IH]; simpl.
  - tauto.
  - destruct (String.eqb_spec k k0) as [->|Hk].
    + split; [discriminate | intros H; exfalso; apply H; now left].
    + rewrite IH. split.
      * intros H [E|E]; [now apply Hk | now apply H].
      * intros H E. apply H. now right.
Qed.

Lemma keys_set d k v k' :
  In k' (Dict.keys (Dict.set k v d)) <-> k' = k \/ In k' (Dict.keys d).
Proof.
  induction d as [|[k0 v0] d IH]; simpl.
  - split; [intros [E|[]]; now left | intros [E|[]]; now left].
  - destruct (String.eqb_spec k k0) as [->|Hk]; simpl.
    + split; [tauto | intros [->|H]; tauto].
    + rewrite IH. tauto.
Qed.

Lemma keys_set_NoDup d k v :
  NoDup (Dict.keys d) -> NoDup (Dict.keys (Dict.set k v d)).
Proof.
  induction d as [|[k0 v0] d IH]; simpl; intros H.
  - constructor; [intros [] | constructor].
  - destruct (String.eqb_spec k k0) as [->|Hk]; simpl; [exact H|].
    inversion H as [|? ? Hnotin Hd]; subst. constructor.
    + rewrite keys_set. intros [E|E]; [now apply Hk | now apply Hnotin].
    + now apply IH.
Qed.

Lemma In_get d k v :
  NoDup (Dict.keys d) -> In (k, v) d -> Dict.get d k = Some v.
Proof.
  induction d as [|[k0 v0] d IH]; simpl; intros Hnd H; [contradiction|].
  inversion Hnd as [|? ? Hnotin Hd]; subst.
  destruct H as [[= -> ->]|H].
  - now rewrite String.eqb_refl.
  - destruct (String.eqb_spec k k0) as [->|Hk].
    + exfalso. apply Hnotin. apply in_map_iff. now exists (k0, v).
    + now apply IH.
Qed.

Lemma get_In d k v : Dict.get d k = Some v -> In (k, v) d.
Proof.
  induction d as [|[k0 v0] d IH]; simpl; [discriminate|].
  destruct (String.eqb_spec k k0) as [->|Hk].
  - intros [= ->]. now left.
  - intros H. right. now apply IH.
Qed.

Lemma get_In_values d k v : Dict.get d k = Some v -> In v (Dict.values d).
Proof.
  intros H. apply get_In in H. apply in_map_iff. now exists (k, v).
Qed.

Lemma In_values_get d v :
  NoDup (Dict.keys d) -> In v (Dict.values d) -> exists k, Dict.get d k = Some v.
Proof.
  intros Hnd H. apply in_map_iff in H. destruct H as [[k v'] [E H]].
  simpl in E. subst v'. exists k. now apply In_get.
Qed.

End DictFacts.

Lemma get_map_values {V W : Type} (f : V -> W) (d : @Dict.t V) (k : string) :
  Dict.get (Dict.map_values f d) k = option_map f (Dict.get d k).
Proof.
  induction d as [|[k0 v0] d IH]; simpl; [reflexivity|].
  destruct (String.eqb k k0); [reflexivity | exact IH].
Qed.

Lemma values_map_values {V W : Type} (f : V -> W) (d : @Dict.t V) :
  Dict.values (Dict.map_values f d) = List.map f (Dict.values d).
Proof.
  unfold Dict.values, Dict.map_values. rewrite !map_map. reflexivity.
Qed.

(** ** The table of counts *)

Lemma count_words_snoc (l : list string) (w : string) :
  count_words (l ++ [w]) = count_word (count_words l) w.
Proof. unfold count_words. now rewrite fold_left_app. Qed.

Lemma count_occ_snoc (l : list string) (x w : string) :
  count_occ string_dec (l ++ [x]) w
  = (count_occ string_dec l w + if string_dec x w then 1 else 0)%nat.
Proof.
  rewrite count_occ_app. simpl. destruct (string_dec x w); reflexivity.
Qed.

(** The count stored for a word is the number of its occurrences; stopwords
    and words that do not occur have no entry. *)
Lemma count_words_get (l : list string) (w : string) :
  Dict.get (count_words l) w
  = if Spec.is_stopword w || (Z.of_nat (count_occ string_dec l w) =? 0)%Z
    then None else Some (Z.of_nat (count_occ string_dec l w)).
Proof.
  induction l as [|x l IH] using rev_ind.
  - simpl. now rewrite orb_true_r.
  - rewrite count_words_snoc, count_occ_snoc. unfold count_word.
    fold (Spec.is_stopword x).
    destruct (Spec.is_stopword x) eqn:Sx.
    + rewrite IH. destruct (string_dec x w) as [->|Hxw].
      * now rewrite Sx.
      * now rewrite Nat.add_0_r.
    + rewrite get_set. destruct (String.eqb_spec w x) as [->|Hwx].
      * rewrite Sx. simpl. destruct (string_dec x x) as [_|N]; [|now elim N].
        unfold Dict.get_default. rewrite IH, Sx. simpl.
        destruct (Z.eqb_spec (Z.of_nat (count_occ string_dec l x)) 0) as [E|E].
        -- destruct (Z.eqb_spec (Z.of_nat (count_occ string_dec l x + 1)) 0);
             [lia|]. f_equal. lia.
        -- destruct (Z.eqb_spec (Z.of_nat (count_occ string_dec l x + 1)) 0);
             [lia|]. f_equal. lia.
      * rewrite IH. destruct (string_dec x w) as [->|_]; [now elim Hwx|].
        now rewrite Nat.add_0_r.
Qed.

Lemma count_words_NoDup (l : list string) : NoDup (Dict.keys (count_words l)).
Proof.
  induction l as [|x l IH] using rev_ind.
  - constructor.
  - rewrite count_words_snoc. unfold count_word.
    destruct (Str.mem x STOPWORDS); [exact IH | now apply keys_set_NoDup].
Qed.

(** Keys of the table are content words, values are their counts. *)
Lemma count_words_entry (l : list string) (w : string) (c : Z) :
  Dict.get (count_words l) w = Some c ->
  Spec.is_stopword w = false /\ In w l
  /\ c = Z.of_nat (count_occ string_dec l w) /\ (1 <= c)%Z.
Proof.
  rewrite count_words_get.
  destruct (Spec.is_stopword w); simpl; [discriminate|].
  destruct (Z.eqb_spec (Z.of_nat (count_occ string_dec l w)) 0) as [E|E];
    [discriminate|].
  intros [= <-]. repeat split; try lia.
  apply (count_occ_In string_dec). lia.
Qed.

Lemma count_words_content (l : list string) (w : string) :
  Spec.is_stopword w = false -> In w l ->
  Dict.get (count_words l) w = Some (Z.of_nat (count_occ string_dec l w)).
Proof.
  intros Hs Hin. rewrite count_words_get, Hs. simpl.
  apply (count_occ_In string_dec) in Hin.
  destruct (Z.eqb_spec (Z.of_nat (count_occ string_dec l w)) 0); [lia|].
  reflexivity.
Qed.

(** ** The largest count *)

Lemma fold_max_spec (xs : list Z) (x : Z) :
  (x <= fold_left Z.max xs x)%Z
  /\ (forall y, In y xs -> (y <= fold_left Z.max xs x)%Z)
  /\ (fold_left Z.max xs x = x \/ In (fold_left Z.max xs x) xs).
Proof.
  revert x. induction xs as [|a xs IH]; intros x; simpl.
  - split; [lia|]. split; [intros y []|now left].
  - destruct (IH (Z.max x a)) as (H1 & H2 & H3). split; [lia|]. split.
    + intros y [<-|Hy]; [lia | now apply H2].
    + destruct H3 as [E|Hin]; [|right; now right].
      rewrite E. destruct (Z.max_spec x a) as [[_ ->]|[_ ->]];
        [right; now left | now left].
Qed.

Lemma py_max_spec (l : list Z) (m : Z) :
  Py.max l = Some m -> In m l /\ forall y, In y l -> (y <= m)%Z.
Proof.
  destruct l as [|x xs]; simpl; [discriminate|]. intros [= <-].
  destruct (fold_max_spec xs x) as (H1 & H2 & H3). split.
  - destruct H3 as [->|H]; [now left | now right].
  - intros y [<-|Hy]; [exact H1 | now apply H2].
Qed.

Lemma fold_right_max_spec (l : list Z) :
  (0 <= fold_right Z.max 0 l)%Z
  /\ (forall y, In y l -> (y <= fold_right Z.max 0 l)%Z)
  /\ (fold_right Z.max 0 l = 0 \/ In (fold_right Z.max 0 l) l)%Z.
Proof.
  induction l as [|a l (H1 & H2 & H3)]; simpl.
  - split; [lia|]. split; [intros y [] | now left].
  - split; [lia|]. split.
    + intros y [<-|Hy]; [lia|]. specialize (H2 y Hy). lia.
    + destruct (Z.max_spec a (fold_right Z.max 0%Z l)) as [[_ ->]|[_ ->]].
      * destruct H3 as [E|Hin]; [now left | right; now right].
      * right. now left.
Qed.

(** The largest count of the table is the count of the most frequent
    content word. *)
Lemma count_words_max (text : string) (m : Z) :
  Py.max (Dict.values (count_words (Spec.words_of text))) = Some m ->
  m = Spec.max_occurrences text /\ (1 <= m)%Z.
Proof.
  intros Hm. apply py_max_spec in Hm. destruct Hm as [Hin Hle].
  pose proof (count_words_NoDup (Spec.words_of text)) as Hnd.
  destruct (In_values_get _ _ Hnd Hin) as [k Hk].
  apply count_words_entry in Hk. destruct Hk as (Sk & Ik & Ek & Pk).
  split; [|exact Pk].
  unfold Spec.max_occurrences.
  remember (List.map (Spec.occurrences text) (Spec.content_words text)) as L
    eqn:EL.
  destruct (fold_right_max_spec L) as (F0 & Fle & Fin).
  assert (Hm : In m L).
  { rewrite EL. apply in_map_iff. exists k. split; [now rewrite Ek|].
    unfold Spec.content_words. apply filter_In. now rewrite Sk. }
  apply Z.le_antisymm; [now apply Fle|].
  destruct Fin as [->|Fin]; [lia|].
  rewrite EL in Fin at 2. apply in_map_iff in Fin. destruct Fin as [w [Ew Hw]].
  unfold Spec.content_words in Hw. apply filter_In in Hw.
  destruct Hw as [Hw Sw]. apply negb_true_iff in Sw.
  apply Hle. rewrite <- Ew.
  exact (get_In_values _ _ _ (count_words_content _ _ Sw Hw)).
Qed.

(** ** The normalized table *)

Section NormalizeFacts.
Context {num : Type} (int_div : Z -> Z -> num).

Lemma normalize_get (d : @Dict.t Z) (w : string) :
  Dict.get (normalize int_div d) w
  = match Py.max (Dict.values d), Dict.get d w with
    | Some m, Some c => Some (int_div c m)
    | _, _ => None
    end.
Proof.
  unfold normalize. destruct (Py.max (Dict.values d)) as [m|].
  - rewrite get_map_values. now destruct (Dict.get d w).
  - reflexivity.
Qed.

Lemma normalize_values (d : @Dict.t Z) (m : Z) :
  Py.max (Dict.values d) = Some m ->
  Dict.values (normalize int_div d) = List.map (fun c => int_div c m) (Dict.values d).
Proof. unfold normalize. intros ->. apply values_map_values. Qed.

Lemma normalize_nonempty (d : @Dict.t Z) :
  normalize int_div d <> [] -> exists m, Py.max (Dict.values d) = Some m.
Proof.
  unfold normalize. destruct (Py.max (Dict.values d)) as [m|]; [|congruence].
  intros _. now exists m.
Qed.

Lemma word_freqs_stopword (text w : string) :
  Str.mem w STOPWORDS = true -> Dict.get (word_freqs int_div text) w = None.
Proof.
  intros Hs. unfold word_freqs. rewrite normalize_get.
  fold (Spec.words_of text). rewrite count_words_get.
  unfold Spec.is_stopword. rewrite Hs. simpl.
  now destruct (Py.max _).
Qed.

Lemma word_freqs_keys (text w : string) :
  In w (Dict.keys (word_freqs int_div text)) -> Str.mem w STOPWORDS = false.
Proof.
  intros Hin. destruct (Str.mem w STOPWORDS) eqn:Hs; [|reflexivity].
  exfalso. revert Hin. apply get_None_keys. now apply word_freqs_stopword.
Qed.

End NormalizeFacts.

(** ** Binary64 quotients of counts *)

Section Binary64Facts.
Local Open Scope Z_scope.

Lemma digits2_pos_bounds (p : positive) :
  2 ^ (Zpos (digits2_pos p) - 1) <= Zpos p < 2 ^ Zpos (digits2_pos p).
Proof.
  induction p as [p IH|p IH|]; cbn [digits2_pos].
  - rewrite Pos2Z.inj_succ.
    replace (Z.succ (Zpos (digits2_pos p)) - 1) with (Zpos (digits2_pos p)) by lia.
    rewrite Z.pow_succ_r by lia.
    assert (E : 2 ^ Zpos (digits2_pos p) = 2 * 2 ^ (Zpos (digits2_pos p) - 1)).
    { rewrite <- Z.pow_succ_r by lia. f_equal. lia. }
    lia.
  - rewrite Pos2Z.inj_succ.
    replace (Z.succ (Zpos (digits2_pos p)) - 1) with (Zpos (digits2_pos p)) by lia.
    rewrite Z.pow_succ_r by lia.
    assert (E : 2 ^ Zpos (digits2_pos p) = 2 * 2 ^ (Zpos (digits2_pos p) - 1)).
    { rewrite <- Z.pow_succ_r by lia. f_equal. lia. }
    lia.
  - cbn. lia.
Qed.

Lemma digits2_pos_unique (p : positive) (d : Z) :
  2 ^ (d - 1) <= Zpos p < 2 ^ d -> 0 < d -> Zpos (digits2_pos p) = d.
Proof.
  intros [Hl Hu] Hd. pose proof (digits2_pos_bounds p) as [Bl Bu].
  destruct (Z.lt_trichotomy (Zpos (digits2_pos p)) d) as [L|[E|G]]; [|exact E|].
  - assert (2 ^ Zpos (digits2_pos p) <= 2 ^ (d - 1)) by (apply Z.pow_le_mono_r; lia).
    lia.
  - assert (2 ^ d <= 2 ^ (Zpos (digits2_pos p) - 1)) by (apply Z.pow_le_mono_r; lia).
    lia.
Qed.

Lemma digits2_pos_mono (p q : positive) :
  Zpos p <= Zpos q -> Zpos (digits2_pos p) <= Zpos (digits2_pos q).
Proof.
  intros H. pose proof (digits2_pos_bounds p) as [Bl _].
  pose proof (digits2_pos_bounds q) as [_ Bu].
  destruct (Z_lt_le_dec (Zpos (digits2_pos q)) (Zpos (digits2_pos p))) as [L|L];
    [|exact L].
  assert (2 ^ Zpos (digits2_pos q) <= 2 ^ (Zpos (digits2_pos p) - 1))
    by (apply Z.pow_le_mono_r; lia).
  lia.
Qed.

Lemma iter_xO (p k : positive) : Zpos (Pos.iter xO p k) = Zpos p * 2 ^ Zpos k.
Proof.
  induction k as [|k IH] using Pos.peano_ind.
  - cbn. lia.
  - rewrite Pos.iter_succ, Pos2Z.inj_xO, IH, Pos2Z.inj_succ, Z.pow_succ_r by lia.
    lia.
Qed.

Lemma fexp_normal (e : Z) : -1074 <= e -> fexp prec emax (53 + e) = e.
Proof. intros H. unfold fexp, emin, prec, emax. lia. Qed.

Lemma shr_fexp_53 (m : positive) (e : Z) (l : location) :
  2 ^ 52 <= Zpos m < 2 ^ 53 -> -1074 <= e ->
  shr_fexp prec emax (Zpos m) e l = (shr_record_of_loc (Zpos m) l, e).
Proof.
  intros Hm He. unfold shr_fexp, Zdigits2.
  rewrite (digits2_pos_unique m 53) by (change (53 - 1) with 52; lia).
  rewrite fexp_normal by exact He. now rewrite Z.sub_diag.
Qed.

Lemma shr_fexp_54 (m : positive) (e : Z) (l : location) :
  2 ^ 53 <= Zpos m < 2 ^ 54 -> -1075 <= e ->
  shr_fexp prec emax (Zpos m) e l = (shr_1 (shr_record_of_loc (Zpos m) l), e + 1).
Proof.
  intros Hm He. unfold shr_fexp, Zdigits2.
  rewrite (digits2_pos_unique m 54) by (change (54 - 1) with 53; lia).
  replace (54 + e) with (53 + (e + 1)) by lia.
  rewrite fexp_normal by lia.
  replace (e + 1 - e) with 1 by lia. reflexivity.
Qed.

Lemma loc_of_shr_record_of_loc (m : Z) (l : location) :
  loc_of_shr_record (shr_record_of_loc m l) = l.
Proof. destruct l as [|[| |]]; reflexivity. Qed.

Lemma shr_m_of_loc (m : Z) (l : location) : shr_m (shr_record_of_loc m l) = m.
Proof. destruct l as [|[| |]]; reflexivity. Qed.

Lemma binary_round_aux_pack (sx : bool) (m e : Z) (l : location) :
  binary_round_aux prec emax sx m e l
  = let '(mrs, e') := shr_fexp prec emax m e l in
    Binary64.pack sx (round_nearest_even (shr_m mrs) (loc_of_shr_record mrs)) e'.
Proof.
  unfold binary_round_aux, Binary64.pack.
  now destruct (shr_fexp prec emax m e l).
Qed.

Lemma round_nearest_even_step (m : Z) (l : location) :
  round_nearest_even m l = m \/ round_nearest_even m l = m + 1.
Proof.
  destruct l as [|[| |]]; cbn; auto. destruct (Z.even m); auto.
Qed.

(** Packing a rounded mantissa of 53 bits, or the carry [2^53]. *)
Lemma pack_normal (sx : bool) (r e : Z) :
  2 ^ 52 <= r <= 2 ^ 53 -> -1074 <= e <= 970 ->
  exists m e',
    Binary64.pack sx r e = S754_finite sx m e'
    /\ 2 ^ 52 <= Zpos m < 2 ^ 53
    /\ ((e' = e /\ Zpos m = r) \/ (e' = e + 1 /\ Zpos m = 2 ^ 52 /\ r = 2 ^ 53)).
Proof.
  intros Hr He. destruct r as [|p|p]; try (exfalso; lia).
  destruct (Z_lt_le_dec (Zpos p) (2 ^ 53)) as [L|L].
  - exists p, e. unfold Binary64.pack. rewrite shr_fexp_53 by lia.
    cbn [shr_record_of_loc shr_m].
    replace (e <=? emax - prec) with true
      by (symmetry; apply Z.leb_le; unfold emax, prec; lia).
    split; [reflexivity|]. split; [lia|]. left. split; reflexivity.
  - assert (E : Zpos p = 2 ^ 53) by lia.
    change (2 ^ 53) with (Zpos 9007199254740992) in E. injection E as ->.
    exists 4503599627370496%positive, (e + 1). unfold Binary64.pack.
    rewrite shr_fexp_54 by (change (2 ^ 53) with 9007199254740992;
                            change (2 ^ 54) with 18014398509481984; lia).
    cbn [shr_record_of_loc shr_1 shr_m orb].
    replace (e + 1 <=? emax - prec) with true
      by (symmetry; apply Z.leb_le; unfold emax, prec; lia).
    split; [reflexivity|]. split; [cbn; lia|]. right. now cbn.
Qed.

Lemma binary_round_aux_53 (sx : bool) (m : positive) (e : Z) (l : location) :
  2 ^ 52 <= Zpos m < 2 ^ 53 -> -1074 <= e <= 970 ->
  exists m' e',
    binary_round_aux prec emax sx (Zpos m) e l = S754_finite sx m' e'
    /\ 2 ^ 52 <= Zpos m' < 2 ^ 53
    /\ (e' = e \/ (e' = e + 1 /\ Zpos m' = 2 ^ 52))
    /\ (l = loc_Exact -> m' = m /\ e' = e).
Proof.
  intros Hm He. rewrite binary_round_aux_pack, shr_fexp_53 by lia.
  rewrite shr_m_of_loc, loc_of_shr_record_of_loc.
  destruct (pack_normal sx (round_nearest_even (Zpos m) l) e) as (m' & e' & P & B & C).
  { destruct (round_nearest_even_step (Zpos m) l) as [-> | ->]; lia. }
  { exact He. }
  exists m', e'. split; [exact P|]. split; [exact B|]. split.
  - destruct C as [[-> _] | (-> & -> & _)]; auto.
  - intros ->. cbn [round_nearest_even] in C.
    destruct C as [[-> E] | (_ & _ & E)]; [|lia]. split; [congruence | reflexivity].
Qed.

Lemma binary_round_aux_54 (sx : bool) (m : positive) (e : Z) (l : location) :
  2 ^ 53 <= Zpos m < 2 ^ 54 -> -1075 <= e <= 969 ->
  exists m' e',
    binary_round_aux prec emax sx (Zpos m) e l = S754_finite sx m' e'
    /\ 2 ^ 52 <= Zpos m' < 2 ^ 53
    /\ (e' = e + 1 \/ (e' = e + 2 /\ Zpos m' = 2 ^ 52)).
Proof.
  intros Hm He. rewrite binary_round_aux_pack, shr_fexp_54 by lia.
  set (mrs := shr_1 (shr_record_of_loc (Zpos m) l)).
  assert (Hh : 2 ^ 52 <= shr_m mrs < 2 ^ 53).
  { subst mrs. change (2 ^ 53) with (2 * 2 ^ 52) in Hm.
    change (2 ^ 54) with (2 * 2 ^ 53) in Hm.
    destruct m as [p|p|]; destruct l as [|[| |]]; cbn [shr_record_of_loc shr_1 shr_m];
      lia. }
  destruct (pack_normal sx (round_nearest_even (shr_m mrs) (loc_of_shr_record mrs))
              (e + 1)) as (m' & e' & P & B & C).
  { destruct (round_nearest_even_step (shr_m mrs) (loc_of_shr_record mrs))
      as [-> | ->]; lia. }
  { lia. }
  exists m', e'. split; [exact P|]. split; [exact B|].
  destruct C as [[-> _] | (-> & -> & _)]; [now left | right; split; [lia | reflexivity]].
Qed.

(** [float(n)] is exact below [2^53]. *)
Lemma binary_normalize_int (n : Z) :
  1 <= n < 2 ^ 53 ->
  exists m e,
    Binary64.normal (binary_normalize prec emax n 0 false) m e
    /\ -52 <= e <= 0
    /\ Zpos m = n * 2 ^ (- e)
    /\ e = Zdigits2 n - 53.
Proof.
  intros Hn. destruct n as [|p|p]; try (exfalso; lia).
  pose proof (digits2_pos_bounds p) as [Bl Bu].
  assert (Hd : 1 <= Zpos (digits2_pos p) <= 53).
  { split; [lia|].
    destruct (Z_lt_le_dec 53 (Zpos (digits2_pos p))) as [L|L]; [|exact L].
    assert (2 ^ 53 <= 2 ^ (Zpos (digits2_pos p) - 1)) by (apply Z.pow_le_mono_r; lia).
    lia. }
  cbn [binary_normalize Zdigits2]. unfold binary_round, shl_align.
  rewrite Z.add_0_r.
  assert (F : fexp prec emax (Zpos (digits2_pos p)) = Zpos (digits2_pos p) - 53).
  { unfold fexp, emin, prec, emax. lia. }
  rewrite F, Z.sub_0_r.
  destruct (Zpos (digits2_pos p) - 53) as [|k|k] eqn:Ek; try (exfalso; lia).
  - destruct (binary_round_aux_53 false p 0 loc_Exact) as (m' & e' & P & B & _ & X).
    { replace 52 with (Zpos (digits2_pos p) - 1) by lia.
      replace 53 with (Zpos (digits2_pos p)) by lia. lia. }
    { lia. }
    destruct (X eq_refl) as [-> ->].
    exists p, 0. split; [split; [exact P | exact B]|]. cbn. lia.
  - assert (Hk : Zpos k = 53 - Zpos (digits2_pos p)) by lia.
    assert (Hm : 2 ^ 52 <= Zpos (Pos.iter xO p k) < 2 ^ 53).
    { rewrite iter_xO, Hk.
      assert (E53 : 2 ^ 53 = 2 ^ Zpos (digits2_pos p) * 2 ^ (53 - Zpos (digits2_pos p))).
      { rewrite <- Z.pow_add_r by lia. f_equal. lia. }
      assert (E52 : 2 ^ 52
                    = 2 ^ (Zpos (digits2_pos p) - 1) * 2 ^ (53 - Zpos (digits2_pos p))).
      { rewrite <- Z.pow_add_r by lia. f_equal. lia. }
      assert (0 < 2 ^ (53 - Zpos (digits2_pos p))) by (apply Z.pow_pos_nonneg; lia).
      rewrite E52, E53. nia. }
    destruct (binary_round_aux_53 false (Pos.iter xO p k) (Zneg k) loc_Exact)
      as (m' & e' & P & B & _ & X); [exact Hm | lia |].
    destruct (X eq_refl) as [-> ->].
    exists (Pos.iter xO p k), (Zneg k). split; [split; [exact P | exact B]|].
    split; [lia|]. split; [|reflexivity].
    rewrite iter_xO. reflexivity.
Qed.

Lemma normal_valid (x : spec_float) (m : positive) (e : Z) :
  Binary64.normal x m e -> -1074 <= e <= 971 -> valid_binary x = true.
Proof.
  intros [-> Hm] He. cbn [SpecFloat.valid_binary]. unfold bounded, canonical_mantissa.
  rewrite (digits2_pos_unique m 53) by (change (53 - 1) with 52; lia).
  rewrite fexp_normal by lia. rewrite Z.eqb_refl. cbn [andb].
  apply Z.leb_le. unfold emax, prec. lia.
Qed.

(** The quotient of two such values, the first not above the second. *)
Lemma SFdiv_normal (m1 m2 : positive) (e1 e2 : Z) :
  2 ^ 52 <= Zpos m1 < 2 ^ 53 -> 2 ^ 52 <= Zpos m2 < 2 ^ 53 ->
  -52 <= e1 <= e2 -> e2 <= 0 ->
  (e1 = e2 -> Zpos m1 <= Zpos m2) ->
  exists m e,
    SFdiv prec emax (S754_finite false m1 e1) (S754_finite false m2 e2)
    = S754_finite false m e
    /\ (e < -52 \/ (e = -52 /\ Zpos m = 2 ^ 52))
    /\ (e1 = e2 -> m1 = m2 -> e = -52).
Proof.
  intros H1 H2 He1 He2 Hle.
  unfold SFdiv, SFdiv_core_binary, Zdigits2.
  rewrite (digits2_pos_unique m1 53), (digits2_pos_unique m2 53)
    by (change (53 - 1) with 52; lia).
  replace (53 + e1 - (53 + e2)) with (e1 - e2) by lia.
  assert (F : fexp prec emax (e1 - e2) = e1 - e2 - 53).
  { unfold fexp, emin, prec, emax. lia. }
  rewrite F. rewrite Z.min_l by lia.
  replace (e1 - e2 - (e1 - e2 - 53)) with 53 by lia.
  rewrite Z.shiftl_mul_pow2 by lia.
  pose proof (Z_div_mod (Zpos m1 * 2 ^ 53) (Zpos m2) eq_refl) as D.
  destruct (Z.div_eucl (Zpos m1 * 2 ^ 53) (Zpos m2)) as [q r].
  destruct D as [D Hr]. cbn [xorb].
  change (2 ^ 52) with 4503599627370496 in *.
  change (2 ^ 53) with 9007199254740992 in *.
  assert (Hq : 4503599627370496 <= q < 18014398509481984) by nia.
  destruct q as [|q|q]; try (exfalso; lia).
  destruct (Z_lt_le_dec (Zpos q) 9007199254740992) as [L|L].
  - destruct (binary_round_aux_53 false q (e1 - e2 - 53) (new_location (Zpos m2) r))
      as (m & e & P & B & C & _).
    { change (2 ^ 52) with 4503599627370496. change (2 ^ 53) with 9007199254740992. lia. }
    { lia. }
    exists m, e. split; [exact P|]. split.
    + change (2 ^ 52) with 4503599627370496 in C. destruct C as [-> | [-> ->]]; lia.
    + intros E1 E2. exfalso. subst. nia.
  - destruct (binary_round_aux_54 false q (e1 - e2 - 53) (new_location (Zpos m2) r))
      as (m & e & P & B & C).
    { change (2 ^ 53) with 9007199254740992.
      change (2 ^ 54) with 18014398509481984. lia. }
    { lia. }
    exists m, e. split; [exact P|].
    change (2 ^ 52) with 4503599627370496 in C.
    assert (Hlt : e1 < e2 \/ e1 = e2) by lia.
    destruct Hlt as [Hlt | Heq].
    + split; [destruct C as [-> | [-> ->]]; lia | lia].
    + specialize (Hle Heq).
      assert (Eq : Zpos q = 9007199254740992 /\ r = 0 /\ Zpos m1 = Zpos m2) by nia.
      destruct Eq as (Eq & -> & Em). injection Eq as ->. injection Em as ->.
      subst e2. replace (e1 - e1 - 53) with (-53) in P by lia.
      assert (N : new_location (Zpos m2) 0 = loc_Exact).
      { unfold new_location, new_location_even, new_location_odd.
        now destruct (Z.even (Zpos m2)). }
      rewrite N in P. vm_compute in P. injection P as <- <-.
      split; [right; split; reflexivity | reflexivity].
Qed.

End Binary64Facts.

(** [float(n)] is exact below [2^53]: a mantissa of 53 bits and the
    exponent that the number of bits of [n] gives. *)
Lemma Prim2SF_float_of_int (n : Z) :
  (1 <= n < 2 ^ 53)%Z ->
  exists m e,
    Prim2SF (Py.float_of_int n) = S754_finite false m e
    /\ (2 ^ 52 <= Zpos m < 2 ^ 53)%Z
    /\ (-52 <= e <= 0)%Z
    /\ Zpos m = (n * 2 ^ (- e))%Z
    /\ e = (Zdigits2 n - 53)%Z.
Proof.
  intros Hn. destruct (binary_normalize_int n Hn) as (m & e & N & He & Hm & Hd).
  exists m, e. unfold Py.float_of_int.
  rewrite Prim2SF_SF2Prim by (apply (normal_valid _ m e N); lia).
  destruct N as [-> B]. auto.
Qed.

Lemma true_div_spec (c m : Z) :
  (1 <= c)%Z -> (c <= m)%Z -> (m < 2 ^ 53)%Z ->
  exists q e,
    Prim2SF (Py.true_div c m) = S754_finite false q e
    /\ (e < -52 \/ (e = -52 /\ Zpos q = 2 ^ 52))%Z
    /\ (c = m -> e = (-52)%Z).
Proof.
  intros Hc Hcm Hm.
  destruct (Prim2SF_float_of_int c) as (m1 & e1 & P1 & B1 & E1 & V1 & D1); [lia|].
  destruct (Prim2SF_float_of_int m) as (m2 & e2 & P2 & B2 & E2 & V2 & D2); [lia|].
  unfold Py.true_div. rewrite div_spec, P1, P2. unfold SF64div.
  assert (Hd : (e1 <= e2)%Z).
  { subst e1 e2. destruct c as [|pc|pc]; try lia. destruct m as [|pm|pm]; try lia.
    cbn [Zdigits2]. pose proof (digits2_pos_mono pc pm Hcm). lia. }
  destruct (SFdiv_normal m1 m2 e1 e2) as (q & e & P & C & X);
    try lia.
  { intros E. rewrite V1, V2, E.
    apply Z.mul_le_mono_nonneg_r; [apply Z.pow_nonneg; lia | exact Hcm]. }
  exists q, e. split; [exact P|]. split; [exact C|].
  intros ->. apply X; [congruence|].
  assert (E : e1 = e2) by congruence. rewrite E in V1. rewrite <- V2 in V1.
  now injection V1.
Qed.

Lemma true_div_range (c m : Z) :
  (1 <= c)%Z -> (c <= m)%Z -> (m < 2 ^ 53)%Z ->
  PrimFloat.ltb 0 (Py.true_div c m) = true /\ PrimFloat.leb (Py.true_div c m) 1 = true.
Proof.
  intros Hc Hcm Hm. destruct (true_div_spec c m Hc Hcm Hm) as (q & e & P & C & _).
  rewrite ltb_spec, leb_spec, P.
  change (Prim2SF 0) with (S754_zero false).
  change (Prim2SF 1) with (S754_finite false 4503599627370496 (-52)).
  split; [reflexivity|].
  unfold SFleb, SFcompare.
  destruct C as [C | [-> C]].
  - now rewrite (proj2 (Z.compare_lt_iff e (-52)) C).
  - rewrite Z.compare_refl. change (2 ^ 52)%Z with (Zpos 4503599627370496) in C.
    injection C as ->. now rewrite Pos.compare_cont_refl.
Qed.

Lemma true_div_self (m : Z) :
  (1 <= m)%Z -> (m < 2 ^ 53)%Z -> Py.true_div m m = 1%float.
Proof.
  intros Hm Hb. destruct (true_div_spec m m Hm (Z.le_refl m) Hb) as (q & e & P & C & X).
  apply Prim2SF_inj. rewrite P.
  change (Prim2SF 1) with (S754_finite false 4503599627370496 (-52)).
  specialize (X eq_refl). subst e. destruct C as [C | [_ C]]; [lia|].
  change (2 ^ 52)%Z with (Zpos 4503599627370496) in C. now injection C as ->.
Qed.

(** The values of a non-empty table are the quotients of the counts by the
    largest count, which is itself one of the counts and at most the number
    of words. *)
Lemma word_freqs_quotients {num : Type} (int_div : Z -> Z -> num)
  (text : string) :
  word_freqs int_div text <> [] ->
  exists maxf,
    (1 <= maxf <= Z.of_nat (List.length (Spec.words_of text)))%Z
    /\ (forall v, In v (Dict.values (word_freqs int_div text)) ->
                  exists c, (1 <= c <= maxf)%Z /\ v = int_div c maxf)
    /\ In (int_div maxf maxf) (Dict.values (word_freqs int_div text)).
Proof.
  intros Hne. unfold word_freqs in *. fold (Spec.words_of text) in *.
  destruct (normalize_nonempty _ _ Hne) as [m Hm].
  rewrite (normalize_values _ _ _ Hm).
  pose proof (count_words_NoDup (Spec.words_of text)) as Hnd.
  destruct (count_words_max _ _ Hm) as [_ Pm].
  destruct (py_max_spec _ _ Hm) as [Hin Hle].
  exists m. split; [|split].
  - split; [exact Pm|].
    destruct (In_values_get _ _ Hnd Hin) as [k Hk].
    apply count_words_entry in Hk. destruct Hk as (_ & _ & -> & _).
    apply inj_le, count_occ_bound.
  - intros v Hv. apply in_map_iff in Hv. destruct Hv as [c [<- Hc]].
    destruct (In_values_get _ _ Hnd Hc) as [k Hk].
    apply count_words_entry in Hk. destruct Hk as (_ & _ & _ & Pc).
    exists c. split; [|reflexivity]. split; [exact Pc | now apply Hle].
  - apply in_map_iff. now exists m.
Qed.

(** C4: the table of word frequencies holds no stopword; the values of a
    non-empty table are the quotients of counts [c] by the largest count
    [maxf], with [1 <= c <= maxf] and [maxf / maxf] among them; in the
    table the program builds, whose quotients are binary64 values, every
    value is above 0 and at most 1 and the value 1 is among them, for a
    text of fewer than 2^53 words (up to there [Py.true_div] is Python's
    division of the counts); and the program's table gives 0 for every
    stopword, which is what a stopword adds to the score of a sentence. *)
Theorem word_freqs_table (text : string) :
  (forall (num : Type) (int_div : Z -> Z -> num) (w : string),
      In w (Dict.keys (word_freqs int_div text)) -> Str.mem w STOPWORDS = false)
  /\ (forall (num : Type) (int_div : Z -> Z -> num),
        word_freqs int_div text <> [] ->
        exists maxf,
          (1 <= maxf <= Z.of_nat (List.length (Spec.words_of text)))%Z
          /\ (forall v, In v (Dict.values (word_freqs int_div text)) ->
                        exists c, (1 <= c <= maxf)%Z /\ v = int_div c maxf)
          /\ In (int_div maxf maxf) (Dict.values (word_freqs int_div text)))
  /\ ((Z.of_nat (List.length (Spec.words_of text)) < 2 ^ 53)%Z ->
      word_freqs Py.true_div text <> [] ->
      (forall v, In v (Dict.values (word_freqs Py.true_div text)) ->
                 PrimFloat.ltb 0 v = true /\ PrimFloat.leb v 1 = true)
      /\ In 1%float (Dict.values (word_freqs Py.true_div text)))
  /\ (forall w, Str.mem w STOPWORDS = true ->
        Dict.get_default (word_freqs Py.true_div text) w 0%float = 0%float).
Proof.
  split; [|split; [|split]].
  - intros num int_div w. apply word_freqs_keys.
  - intros num int_div. apply word_freqs_quotients.
  - intros Hb Hne.
    destruct (word_freqs_quotients Py.true_div text Hne)
      as (m & [Pm Bm] & Hall & Hmax).
    split.
    + intros v Hv. destruct (Hall v Hv) as (c & [Pc Hc] & ->).
      apply true_div_range; lia.
    + rewrite <- (true_div_self m) by lia. exact Hmax.
  - intros w Hs. unfold Dict.get_default.
    now rewrite (word_freqs_stopword Py.true_div text w Hs).
Qed.

Lemma word_freqs_table_witness :
  (Z.of_nat (List.length (Spec.words_of "The cat sat. The cat ran.")) < 2 ^ 53)%Z
  /\ word_freqs Py.true_div "The cat sat. The cat ran." <> []
  /\ (forall v,
        In v (Dict.values (word_freqs Py.true_div "The cat sat. The cat ran.")) ->
        PrimFloat.ltb 0 v = true /\ PrimFloat.leb v 1 = true)
  /\ In 1%float (Dict.values (word_freqs Py.true_div "The cat sat. The cat ran.")).
Proof.
  assert (B : (Z.of_nat (List.length (Spec.words_of "The cat sat. The cat ran."))
               < 2 ^ 53)%Z) by (vm_compute; reflexivity).
  assert (H : word_freqs Py.true_div "The cat sat. The cat ran." <> [])
    by (vm_compute; discriminate).
  split; [exact B|]. split; [exact H|].
  exact (proj1 (proj2 (proj2 (word_freqs_table "The cat sat. The cat ran."))) B H).
Defined.

(** ** The score of a sentence *)

Lemma fold_left_pointwise {A B : Type} (f g : A -> B -> A) (l : list B) (a : A) :
  (forall x y, f x y = g x y) -> fold_left f l a = fold_left g l a.
Proof.
  intros E. revert a. induction l as [|b l IH]; intros a; simpl; [reflexivity|].
  now rewrite E, IH.
Qed.

(** What the program reads in its table for a word is the frequency of the
    word as the spec defines it. *)
Lemma word_freqs_frequency (text w : string) :
  Dict.get_default (word_freqs Py.true_div text) w 0%float
  = Spec.frequency text w.
Proof.
  unfold Dict.get_default, word_freqs, Spec.frequency, Spec.occurrences.
  fold (Spec.words_of text). rewrite normalize_get, count_words_get.
  destruct (Spec.is_stopword w
            || (Z.of_nat (count_occ string_dec (Spec.words_of text) w) =? 0)%Z)
    eqn:E.
  - now destruct (Py.max _).
  - destruct (Py.max (Dict.values (count_words (Spec.words_of text))))
      as [m|] eqn:Hm.
    + apply count_words_max in Hm. destruct Hm as [-> _]. reflexivity.
    + exfalso.
      assert (G : Dict.get (count_words (Spec.words_of text)) w
                  = Some (Z.of_nat (count_occ string_dec (Spec.words_of text) w)))
        by (now rewrite count_words_get, E).
      apply get_In_values in G.
      destruct (Dict.values (count_words (Spec.words_of text)));
        [contradiction | discriminate].
Qed.

Lemma sentence_score_root_normalized (pow : float -> float -> float)
  (text s : string) :
  sentence_score pow (word_freqs Py.true_div text) s
  = Spec.root_normalized_score pow text s.
Proof.
  unfold sentence_score, Spec.root_normalized_score, Spec.frequency_sum.
  fold (Spec.words_of s).
  destruct (Spec.words_of s) as [|w ws] eqn:E; [reflexivity|].
  unfold Py.pow_half. f_equal.
  apply fold_left_pointwise. intros acc x. now rewrite word_freqs_frequency.
Qed.

(** C1, as the program has it: the score of a sentence is the sum of the
    normalized frequencies of its words divided by [n ** 0.5], the power
    0.5 of the number [n] of its word tokens as the float power [pow]
    returns it (and 0 for a sentence without word tokens). *)
Theorem sent_scores_root_normalized (pow : float -> float -> float)
  (text : string) (min_sentences : Z) :
  (min_sentences < Z.of_nat (List.length (split_sentences text)))%Z ->
  sent_scores pow text (split_sentences text)
  = List.map (fun s => (s, Spec.root_normalized_score pow text s))
             (split_sentences text).
Proof.
  intros _. unfold sent_scores. apply map_ext. intros s.
  now rewrite sentence_score_root_normalized.
Qed.

Lemma sent_scores_root_normalized_witness :
  (1 < Z.of_nat (List.length (split_sentences "Aa bb cc dd. Ee.")))%Z
  /\ sent_scores Sample.pow "Aa bb cc dd. Ee." (split_sentences "Aa bb cc dd. Ee.")
     = List.map (fun s => (s, Spec.root_normalized_score Sample.pow "Aa bb cc dd. Ee." s))
                (split_sentences "Aa bb cc dd. Ee.").
Proof.
  assert (H : (1 < Z.of_nat (List.length (split_sentences "Aa bb cc dd. Ee.")))%Z)
    by (vm_compute; reflexivity).
  split; [exact H|].
  exact (sent_scores_root_normalized Sample.pow "Aa bb cc dd. Ee." 1 H).
Defined.

(** C1, as the claim words it, fails: four words of frequency 1 score
    4 / 2 = 2 in the program and 4 / 4 = 1 when divided by their number,
    with any float power that gives 2 for [4 ** 0.5]. *)
Lemma sent_scores_not_length_normalized :
  (1 < Z.of_nat (List.length (split_sentences "Aa bb cc dd. Ee.")))%Z
  /\ sent_scores Sample.pow "Aa bb cc dd. Ee." (split_sentences "Aa bb cc dd. Ee.")
     = [("Aa bb cc dd.", 2%float); ("Ee.", 1%float)]
  /\ List.map (fun s => (s, Spec.length_normalized_score "Aa bb cc dd. Ee." s))
              (split_sentences "Aa bb cc dd. Ee.")
     = [("Aa bb cc dd.", 1%float); ("Ee.", 1%float)]
  /\ (forall pow : float -> float -> float,
        pow 4%float 0.5%float = 2%float ->
        sent_scores pow "Aa bb cc dd. Ee." (split_sentences "Aa bb cc dd. Ee.")
        <> List.map
             (fun s => (s, Spec.length_normalized_score "Aa bb cc dd. Ee." s))
             (split_sentences "Aa bb cc dd. Ee.")).
Proof.
  split; [vm_compute; reflexivity|].
  split; [vm_compute; reflexivity|].
  split; [vm_compute; reflexivity|].
  intros pow Hp H.
  apply (f_equal (fun l => match l with
                           | (_, x) :: _ => x
                           | [] => 0%float
                           end)) in H.
  vm_compute in H. rewrite Hp in H.
  apply (f_equal (fun x => PrimFloat.eqb x 1%float)) in H.
  vm_compute in H. discriminate.
Qed.

(** ** Runs in different processes *)

Lemma py_max_perm (l l' : list Z) :
  Permutation l l' -> Py.max l = Py.max l'.
Proof.
  intros P.
  destruct (Py.max l) as [m|] eqn:E; destruct (Py.max l') as [m'|] eqn:E'.
  - apply py_max_spec in E. apply py_max_spec in E'.
    destruct E as [I L]. destruct E' as [I' L']. f_equal. apply Z.le_antisymm.
    + apply L'. exact (Permutation_in _ P I).
    + apply L. exact (Permutation_in _ (Permutation_sym P) I').
  - destruct l' as [|x l']; [|discriminate].
    apply Permutation_sym, Permutation_nil in P. subst l. discriminate.
  - destruct l as [|x l]; [|discriminate].
    apply Permutation_nil in P. subst l'. discriminate.
  - reflexivity.
Qed.

Lemma get_perm {V : Type} (d d' : @Dict.t V) (k : string) :
  NoDup (Dict.keys d) -> Permutation d' d -> Dict.get d' k = Dict.get d k.
Proof.
  intros Hnd P.
  assert (Pk : Permutation (Dict.keys d') (Dict.keys d))
    by (apply Permutation_map; exact P).
  assert (Hnd' : NoDup (Dict.keys d'))
    by (exact (Permutation_NoDup (Permutation_sym Pk) Hnd)).
  destruct (Dict.get d k) as [v|] eqn:E.
  - apply In_get; [exact Hnd'|].
    apply (Permutation_in _ (Permutation_sym P)). now apply get_In.
  - apply get_None_keys. apply get_None_keys in E. intros H. apply E.
    exact (Permutation_in _ Pk H).
Qed.

Lemma run_word_freqs_get (w : Run.world) (text x : string) :
  Run.sound w ->
  Dict.get (Run.word_freqs w text) x = Dict.get (word_freqs Py.true_div text) x.
Proof.
  intros [_ Hd]. unfold Run.word_freqs, word_freqs. rewrite !normalize_get.
  set (counts := count_words (Re.findall_words (Str.lower text))).
  rewrite (py_max_perm (Dict.values (Run.dict_order w counts)) (Dict.values counts))
    by (apply Permutation_map, Hd).
  rewrite (get_perm counts (Run.dict_order w counts) x)
    by (first [apply count_words_NoDup | apply Hd]).
  reflexivity.
Qed.

Lemma sentence_score_ext (pow : float -> float -> float)
  (freqs freqs' : @Dict.t float) (s : string) :
  (forall x, Dict.get freqs x = Dict.get freqs' x) ->
  sentence_score pow freqs s = sentence_score pow freqs' s.
Proof.
  intros H. unfold sentence_score.
  destruct (Re.findall_words (Str.lower s)) as [|x l] eqn:E; [reflexivity|].
  f_equal. apply fold_left_pointwise. intros acc y.
  unfold Dict.get_default. now rewrite H.
Qed.

Lemma run_sent_scores (w : Run.world) (pow : float -> float -> float)
  (text : string) (sentences : list string) :
  Run.sound w ->
  Run.sent_scores w pow text sentences = sent_scores pow text sentences.
Proof.
  intros Hw. unfold Run.sent_scores, sent_scores. apply map_ext. intros s.
  f_equal. apply sentence_score_ext. intros x. now apply run_word_freqs_get.
Qed.

Lemma mem_ext (l l' : list string) (s : string) :
  (forall x, In x l' <-> In x l) -> Str.mem s l' = Str.mem s l.
Proof.
  intros H. destruct (Str.mem s l) eqn:E.
  - apply mem_In. apply H. now apply mem_In.
  - destruct (Str.mem s l') eqn:E'; [|reflexivity].
    apply mem_In in E'. apply H in E'. apply mem_In in E'. congruence.
Qed.

Lemma run_summarize_text (pow : float -> float -> float) (text : string)
  (ratio : float) (min_sentences : Z) (w : Run.world) :
  Run.sound w ->
  Run.summarize_text pow text ratio min_sentences w
  = (summarize_text pow text ratio min_sentences, w).
Proof.
  intros Hw. unfold Run.summarize_text, summarize_text.
  destruct (Z.of_nat (List.length (split_sentences text)) <=? min_sentences)%Z;
    [reflexivity|].
  rewrite (run_sent_scores w pow text _ Hw).
  destruct (keep_count (List.length (split_sentences text)) ratio min_sentences)
    as [k|]; [|reflexivity].
  f_equal. f_equal. apply filter_ext. intros s. apply mem_ext.
  intros x. apply (proj1 Hw).
Qed.

(** C7: two runs of [summarize_text] on the same text, ratio and
    [min_sentences] return the same, in whatever process each of them takes
    place: the returned value depends neither on the state of the [random]
    module nor on the order in which the set [chosen] and the dict [freqs]
    hold their items, it is the value of the function [summarize_text] of
    the three arguments, and the call leaves the state as it found it. *)
Theorem summarize_text_deterministic (pow : float -> float -> float)
  (text : string) (ratio : float) (min_sentences : Z) (w1 w2 : Run.world) :
  Run.sound w1 -> Run.sound w2 ->
  fst (Run.summarize_text pow text ratio min_sentences w1)
  = fst (Run.summarize_text pow text ratio min_sentences w2)
  /\ fst (Run.summarize_text pow text ratio min_sentences w1)
     = summarize_text pow text ratio min_sentences
  /\ snd (Run.summarize_text pow text ratio min_sentences w1) = w1.
Proof.
  intros H1 H2. rewrite !run_summarize_text by assumption. repeat split.
Qed.

Lemma summarize_text_deterministic_witness :
  Run.sound Fixture.insertion_world
  /\ Run.sound Fixture.reversed_world
  /\ fst (Run.summarize_text Sample.pow
            "The cat sat. The cat ran away. Dogs bark." default_ratio 2
            Fixture.insertion_world)
     = fst (Run.summarize_text Sample.pow
              "The cat sat. The cat ran away. Dogs bark." default_ratio 2
              Fixture.reversed_world)
  /\ fst (Run.summarize_text Sample.pow
            "The cat sat. The cat ran away. Dogs bark." default_ratio 2
            Fixture.insertion_world)
     = summarize_text Sample.pow "The cat sat. The cat ran away. Dogs bark."
         default_ratio 2
  /\ snd (Run.summarize_text Sample.pow
            "The cat sat. The cat ran away. Dogs bark." default_ratio 2
            Fixture.insertion_world)
     = Fixture.insertion_world.
Proof.
  assert (H1 : Run.sound Fixture.insertion_world)
    by (split; [intros items x; reflexivity | intros d; reflexivity]).
  assert (H2 : Run.sound Fixture.reversed_world).
  { split.
    - intros items x. symmetry. apply in_rev.
    - intros d. apply Permutation_sym, Permutation_rev. }
  split; [exact H1|]. split; [exact H2|].
  exact (summarize_text_deterministic Sample.pow
           "The cat sat. The cat ran away. Dogs bark." default_ratio 2
           Fixture.insertion_world Fixture.reversed_world H1 H2).
Defined.

(** ** Suffixes *)

Lemma length_app (s t : string) :
  String.length (s ++ t)%string = (String.length s + String.length t)%nat.
Proof. induction s as [|c s IH]; simpl; [reflexivity | now rewrite IH]. Qed.

Lemma substring_all (s : string) : substring 0 (String.length s) s = s.
Proof. induction s as [|c s IH]; simpl; [reflexivity | now rewrite IH]. Qed.

Lemma substring_app_left (s t : string) :
  substring 0 (String.length s) (s ++ t)%string = s.
Proof.
  induction s as [|c s IH]; simpl; [now destruct t | now rewrite IH].
Qed.

Lemma substring_app_right (s t : string) (m : nat) :
  substring (String.length s) m (s ++ t)%string = substring 0 m t.
Proof. induction s as [|c s IH]; simpl; [reflexivity | exact IH]. Qed.

Lemma substring_split (s : string) (n : nat) :
  (n <= String.length s)%nat ->
  s = (substring 0 n s ++ substring n (String.length s - n) s)%string.
Proof.
  revert n. induction s as [|c s IH]; intros n Hn; simpl in *.
  - now destruct n.
  - destruct n as [|n]; simpl.
    + now rewrite substring_all.
    + f_equal. apply IH. lia.
Qed.

Lemma endswith_iff (s suffix : string) :
  Str.endswith s suffix = true <-> exists stem, s = (stem ++ suffix)%string.
Proof.
  unfold Str.endswith. rewrite andb_true_iff, Nat.leb_le, String.eqb_eq. split.
  - intros [Hle E].
    exists (substring 0 (String.length s - String.length suffix) s).
    pose proof (substring_split s (String.length s - String.length suffix)
                  ltac:(lia)) as Sp.
    replace (String.length s - (String.length s - String.length suffix))%nat
      with (String.length suffix) in Sp by lia.
    rewrite E in Sp. exact Sp.
  - intros [stem ->]. rewrite length_app. split; [lia|].
    replace (String.length stem + String.length suffix - String.length suffix)%nat
      with (String.length stem) by lia.
    rewrite substring_app_right. apply substring_all.
Qed.

Lemma drop_last_app (stem suffix : string) :
  Str.drop_last (String.length suffix) (stem ++ suffix)%string = stem.
Proof.
  unfold Str.drop_last. rewrite length_app.
  replace (String.length stem + String.length suffix - String.length suffix)%nat
    with (String.length stem) by lia.
  apply substring_app_left.
Qed.

(** ** The synonym resolver without WordNet *)

Lemma choice_returns {A : Type} (seq : list A) (g : Rand.rng) :
  seq <> [] -> exists a, Rand.choice seq g = (Some a, Rand.step g) /\ In a seq.
Proof.
  intros Hne. destruct seq as [|x xs]; [congruence|].
  unfold Rand.choice, Rand.bind, Rand.randbelow.
  set (i := (Rand.raw g (Rand.tick g) mod List.length (x :: xs))%nat).
  assert (Hi : (i < List.length (x :: xs))%nat)
    by (apply Nat.mod_upper_bound; simpl; lia).
  destruct (nth_error (x :: xs) i) as [a|] eqn:E.
  - exists a. split; [reflexivity | exact (nth_error_In _ _ E)].
  - apply nth_error_None in E. lia.
Qed.

Lemma FALLBACK_SYNS_nonempty (k : string) (syns : list string) :
  Dict.get FALLBACK_SYNS k = Some syns -> syns <> [].
Proof.
  intros H. apply get_In in H.
  assert (F : Forall (fun kv : string * list string => snd kv <> []) FALLBACK_SYNS)
    by (repeat constructor; discriminate).
  rewrite Forall_forall in F. exact (F _ H).
Qed.

Lemma wordnet_synonym_unavailable (wn : wordnet) (word : string) :
  Spec.wordnet_unavailable wn word -> wordnet_synonym wn word = None.
Proof.
  unfold wordnet_synonym. intros [H|H]; rewrite H; [reflexivity|].
  now destruct (USE_NLTK wn).
Qed.

(** C10: without WordNet [synonym_for] returns a string, whatever the word
    and the random source; for a word whose lower-case form is no key of
    the fallback thesaurus it is the word without its final ["ing"] when
    the word ends in ["ing"] and has more than 4 characters, and the word
    itself otherwise. *)
Theorem synonym_for_without_wordnet (wn : wordnet) (word : string)
  (g : Rand.rng) :
  Spec.wordnet_unavailable wn word ->
  exists s g',
    synonym_for wn word g = (Some s, g')
    /\ (~ In (Str.lower word) (Dict.keys FALLBACK_SYNS) ->
        (forall stem, word = (stem ++ "ing")%string ->
                      (4 < String.length word)%nat -> s = stem)
        /\ ((~ exists stem, word = (stem ++ "ing")%string)
            \/ (String.length word <= 4)%nat -> s = word)).
Proof.
  intros Hwn. unfold synonym_for.
  rewrite (wordnet_synonym_unavailable _ _ Hwn).
  destruct (Dict.get FALLBACK_SYNS (Str.lower word)) as [syns|] eqn:Hk.
  - destruct (choice_returns syns g (FALLBACK_SYNS_nonempty _ _ Hk)) as [a [E _]].
    exists a, (Rand.step g). split; [exact E|].
    intros Hnot. exfalso. apply get_None_keys in Hnot. congruence.
  - destruct (Str.endswith word "ing") eqn:He;
      destruct (4 <? String.length word)%nat eqn:Hl; simpl;
      eexists; exists g; (split; [reflexivity|]); intros _; split.
    + intros stem -> _. exact (drop_last_app stem "ing").
    + apply endswith_iff in He. apply Nat.ltb_lt in Hl.
      intros [N|N]; [now elim N | lia].
    + apply Nat.ltb_ge in Hl. intros stem _ L. lia.
    + reflexivity.
    + intros stem E _. exfalso.
      assert (T : Str.endswith word "ing" = true)
        by (apply endswith_iff; now exists stem).
      congruence.
    + reflexivity.
    + intros stem E _. exfalso.
      assert (T : Str.endswith word "ing" = true)
        by (apply endswith_iff; now exists stem).
      congruence.
    + reflexivity.
Qed.

Lemma synonym_for_without_wordnet_witness :
  Spec.wordnet_unavailable Sample.wordnet_without_data "running"
  /\ exists s g',
       synonym_for Sample.wordnet_without_data "running" Sample.rng = (Some s, g')
       /\ (~ In (Str.lower "running") (Dict.keys FALLBACK_SYNS) ->
           (forall stem, "running" = (stem ++ "ing")%string ->
                         (4 < String.length "running")%nat -> s = stem)
           /\ ((~ exists stem, "running" = (stem ++ "ing")%string)
               \/ (String.length "running" <= 4)%nat -> s = "running")).
Proof.
  assert (H : Spec.wordnet_unavailable Sample.wordnet_without_data "running")
    by (right; reflexivity).
  split; [exact H|].
  exact (synonym_for_without_wordnet Sample.wordnet_without_data "running"
           Sample.rng H).
Defined.

(** ** The paraphraser at strength 0 *)

Lemma findall_tokens_concat (s : string) :
  Str.concat (Re.findall_tokens s) = s.
Proof.
  induction s as [|c s IH]; simpl; [reflexivity|].
  destruct (Re.findall_tokens s) as [|t ts]; simpl in *.
  - now rewrite <- IH.
  - destruct (Bool.eqb (Char.isword c) (Re.head_isword t)); simpl;
      now rewrite <- IH.
Qed.

Lemma never_negative_step (g : Rand.rng) :
  Spec.never_negative g -> Spec.never_negative (Rand.step g).
Proof. intros H i. exact (H i). Qed.

Lemma mapM_pure {A B : Type} (P : Rand.rng -> Prop) (f : A -> Rand.M B)
  (h : A -> B) :
  (forall a g, P g -> exists g', f a g = (Some (h a), g') /\ P g') ->
  forall l g, P g ->
    exists g', Rand.mapM f l g = (Some (List.map h l), g') /\ P g'.
Proof.
  intros Hf. induction l as [|a l IH]; intros g Hg; simpl.
  - exists g. split; [reflexivity | exact Hg].
  - destruct (Hf a g Hg) as [g1 [E1 H1]].
    destruct (IH g1 H1) as [g2 [E2 H2]].
    exists g2. split; [|exact H2].
    unfold Rand.bind. rewrite E1, E2. reflexivity.
Qed.

Lemma paraphrase_token_zero (wn : wordnet) (t : string) (g : Rand.rng) :
  Spec.never_negative g ->
  exists g', paraphrase_token wn 0%float t g = (Some t, g')
             /\ Spec.never_negative g'.
Proof.
  intros H. unfold paraphrase_token. destruct (Re.match_word t).
  - exists (Rand.step g). split; [|now apply never_negative_step].
    unfold Rand.bind, Rand.random. now rewrite (H (Rand.tick g)).
  - exists g. split; [reflexivity | exact H].
Qed.

Lemma paraphrase_sentence_zero (wn : wordnet) (s : string) (g : Rand.rng) :
  Spec.never_negative g ->
  exists g', paraphrase_sentence wn 0%float s g = (Some s, g')
             /\ Spec.never_negative g'.
Proof.
  intros H. unfold paraphrase_sentence.
  destruct (mapM_pure Spec.never_negative (paraphrase_token wn 0%float)
              (fun t => t) (paraphrase_token_zero wn) (Re.findall_tokens s) g H)
    as [g' [E H']].
  exists g'. split; [|exact H'].
  unfold Rand.bind. rewrite E, map_id. unfold Rand.ret.
  now rewrite findall_tokens_concat.
Qed.

Lemma maybe_shuffle_zero (paraphrased : list string) (g : Rand.rng) :
  Spec.never_negative g ->
  exists g', maybe_shuffle 0%float paraphrased g = (Some paraphrased, g').
Proof.
  intros H. unfold maybe_shuffle.
  destruct (1 <? List.length paraphrased)%nat.
  - exists (Rand.step g). unfold Rand.bind, Rand.random.
    change (PrimFloat.mul 0.2%float 0%float) with 0%float.
    now rewrite (H (Rand.tick g)).
  - exists g. reflexivity.
Qed.

Lemma paraphrase_token_other (wn : wordnet) (strength : float) (t : string)
  (g : Rand.rng) :
  Re.head_isword t = false -> paraphrase_token wn strength t g = (Some t, g).
Proof.
  intros H. unfold paraphrase_token, Re.match_word. now rewrite H.
Qed.

(** C6: at strength 0, with a random source that is never negative,
    [paraphrase_text] returns the sentences of the text joined by single
    spaces, each sentence being returned as it is; the tokens of a sentence
    concatenate to the sentence; and a token that does not start with a
    word character is passed on unchanged at every strength. *)
Theorem paraphrase_text_strength_zero (wn : wordnet) (text : string)
  (g : Rand.rng) :
  Spec.never_negative g ->
  fst (paraphrase_text wn text 0%float g)
    = Some (Str.join " " (split_sentences text))
  /\ (forall s g', Spec.never_negative g' ->
        fst (paraphrase_sentence wn 0%float s g') = Some s)
  /\ (forall s, Str.concat (Re.findall_tokens s) = s)
  /\ (forall strength t g', Re.head_isword t = false ->
        paraphrase_token wn strength t g' = (Some t, g')).
Proof.
  intros H. split; [|split; [|split]].
  - unfold paraphrase_text.
    destruct (mapM_pure Spec.never_negative (paraphrase_sentence wn 0%float)
                (fun s => s) (paraphrase_sentence_zero wn)
                (split_sentences text) g H) as [g1 [E1 H1]].
    rewrite map_id in E1.
    destruct (maybe_shuffle_zero (split_sentences text) g1 H1) as [g2 E2].
    unfold Rand.bind. rewrite E1, E2. reflexivity.
  - intros s g' H'. destruct (paraphrase_sentence_zero wn s g' H') as [g2 [E _]].
    now rewrite E.
  - exact findall_tokens_concat.
  - intros strength t g'. apply paraphrase_token_other.
Qed.

Lemma sample_rng_never_negative : Spec.never_negative Sample.rng.
Proof.
  intros i. unfold Sample.rng. simpl. destruct (Nat.even i); reflexivity.
Defined.

Lemma paraphrase_text_strength_zero_witness :
  Spec.never_negative Sample.rng
  /\ fst (paraphrase_text Sample.no_wordnet "A good idea.  Keep going!" 0%float
            Sample.rng)
     = Some (Str.join " " (split_sentences "A good idea.  Keep going!")).
Proof.
  split; [exact sample_rng_never_negative|].
  exact (proj1 (paraphrase_text_strength_zero Sample.no_wordnet
                  "A good idea.  Keep going!" Sample.rng
                  sample_rng_never_negative)).
Defined.

(** ** The paraphraser always answers *)

Lemma mapM_total {A B : Type} (f : A -> Rand.M B) :
  (forall a g, exists b g', f a g = (Some b, g')) ->
  forall l g, exists bs g', Rand.mapM f l g = (Some bs, g').
Proof.
  intros Hf. induction l as [|a l IH]; intros g; simpl.
  - exists [], g. reflexivity.
  - destruct (Hf a g) as [b [g1 E1]]. destruct (IH g1) as [bs [g2 E2]].
    exists (b :: bs), g2. unfold Rand.bind. now rewrite E1, E2.
Qed.

Lemma synonym_for_total (wn : wordnet) (word : string) (g : Rand.rng) :
  exists s g', synonym_for wn word g = (Some s, g').
Proof.
  unfold synonym_for. destruct (wordnet_synonym wn word) as [name|].
  - exists name, g. reflexivity.
  - destruct (Dict.get FALLBACK_SYNS (Str.lower word)) as [syns|] eqn:Hk.
    + destruct (choice_returns syns g (FALLBACK_SYNS_nonempty _ _ Hk))
        as [a [E _]].
      now exists a, (Rand.step g).
    + destruct (Str.endswith word "ing" && (4 <? String.length word)%nat);
        eexists; exists g; reflexivity.
Qed.

Lemma paraphrase_token_total (wn : wordnet) (strength : float) (t : string)
  (g : Rand.rng) :
  exists s g', paraphrase_token wn strength t g = (Some s, g').
Proof.
  unfold paraphrase_token. destruct (Re.match_word t).
  - unfold Rand.bind at 1, Rand.random.
    destruct (PrimFloat.ltb (Rand.uniform g (Rand.tick g)) strength).
    + destruct (synonym_for_total wn (Str.lower t) (Rand.step g))
        as [s [g' E]].
      unfold Rand.bind. rewrite E. eexists; eexists; reflexivity.
    + eexists; eexists; reflexivity.
  - eexists; eexists; reflexivity.
Qed.

Lemma paraphrase_sentence_total (wn : wordnet) (strength : float) (s : string)
  (g : Rand.rng) :
  exists p g', paraphrase_sentence wn strength s g = (Some p, g').
Proof.
  unfold paraphrase_sentence.
  destruct (mapM_total (paraphrase_token wn strength)
              (paraphrase_token_total wn strength) (Re.findall_tokens s) g)
    as [ts [g' E]].
  unfold Rand.bind. rewrite E. eexists; eexists; reflexivity.
Qed.

Lemma shuffle_from_total {A : Type} (i : nat) (x : list A) (g : Rand.rng) :
  exists y g', Rand.shuffle_from i x g = (Some y, g').
Proof.
  revert x g. induction i as [|i IH]; intros x g; simpl.
  - exists x, g. reflexivity.
  - unfold Rand.bind, Rand.randbelow. apply IH.
Qed.

Lemma maybe_shuffle_total (strength : float) (l : list string) (g : Rand.rng) :
  exists y g', maybe_shuffle strength l g = (Some y, g').
Proof.
  unfold maybe_shuffle. destruct (1 <? List.length l)%nat.
  - unfold Rand.bind, Rand.random.
    destruct (PrimFloat.ltb _ _).
    + apply shuffle_from_total.
    + eexists; eexists; reflexivity.
  - eexists; eexists; reflexivity.
Qed.

Lemma paraphrase_text_total (wn : wordnet) (text : string) (strength : float)
  (g : Rand.rng) :
  exists para g', paraphrase_text wn text strength g = (Some para, g').
Proof.
  unfold paraphrase_text.
  destruct (mapM_total (paraphrase_sentence wn strength)
              (paraphrase_sentence_total wn strength) (split_sentences text) g)
    as [ps [g1 E1]].
  destruct (maybe_shuffle_total strength ps g1) as [qs [g2 E2]].
  unfold Rand.bind. rewrite E1, E2. eexists; eexists; reflexivity.
Qed.

(** ** The endpoints *)

Lemma is_error_NoText (r : response) : Spec.is_error r <-> r = NoText.
Proof.
  unfold Spec.is_error. destruct r; simpl; split;
    try (intros [H _]; discriminate); try discriminate; auto.
Qed.

(** C5, as the program has it: on a request whose fields can be read (the
    text is a string, the numbers convert), each endpoint answers with
    status 400 and ["ok": false] exactly when the stripped text is empty;
    otherwise [/paraphrase] answers ["ok": true] with the paraphrase, and
    [/summarize] answers ["ok": true] with the summary whenever
    [summarize_text] returns one. *)
Theorem endpoints_on_readable_requests (pow : float -> float -> float)
  (parse_float : string -> option float) (parse_int : string -> option Z)
  (wn : wordnet) (body : json) :
  (forall text ratio min_sentences,
      Spec.decodes_summarize parse_float parse_int body text ratio min_sentences ->
      (Spec.is_error (api_summarize pow parse_float parse_int body)
       <-> text = EmptyString)
      /\ (text <> EmptyString ->
          forall summary,
            summarize_text pow text ratio min_sentences = Some summary ->
            api_summarize pow parse_float parse_int body
            = Summary (Str.join " " summary) summary))
  /\ (forall text strength g,
      Spec.decodes_paraphrase parse_float body text strength ->
      (Spec.is_error (fst (api_paraphrase parse_float wn body g))
       <-> text = EmptyString)
      /\ (text <> EmptyString ->
          exists para g',
            paraphrase_text wn text strength g = (Some para, g')
            /\ api_paraphrase parse_float wn body g = (Paraphrase para, g'))).
Proof.
  split.
  - intros text ratio m D. unfold Spec.decodes_summarize in D.
    unfold api_summarize. rewrite D. rewrite is_error_NoText.
    destruct text as [|c r]; simpl.
    + split; [tauto | intros N; now elim N].
    + split.
      * split; [|discriminate].
        destruct (summarize_text pow (String c r) ratio m); discriminate.
      * intros _ summary ->. reflexivity.
  - intros text strength g D. unfold Spec.decodes_paraphrase in D.
    unfold api_paraphrase. rewrite D. rewrite is_error_NoText.
    destruct text as [|c r]; simpl.
    + split; [tauto | intros N; now elim N].
    + destruct (paraphrase_text_total wn (String c r) strength g)
        as [para [g' E]].
      rewrite E. simpl. split.
      * split; discriminate.
      * intros _. now exists para, g'.
Qed.

Lemma endpoints_on_readable_requests_witness :
  Spec.decodes_summarize Sample.parse_float Sample.parse_int
    (JObject [("text", JString " Hello there. Bye. ")])
    "Hello there. Bye." default_ratio default_min_sentences
  /\ (Spec.is_error
        (api_summarize Sample.pow Sample.parse_float Sample.parse_int
           (JObject [("text", JString " Hello there. Bye. ")]))
      <-> "Hello there. Bye." = EmptyString)
  /\ ("Hello there. Bye." <> EmptyString ->
      forall summary,
        summarize_text Sample.pow "Hello there. Bye." default_ratio default_min_sentences
          = Some summary ->
        api_summarize Sample.pow Sample.parse_float Sample.parse_int
          (JObject [("text", JString " Hello there. Bye. ")])
        = Summary (Str.join " " summary) summary).
Proof.
  assert (D : Spec.decodes_summarize Sample.parse_float Sample.parse_int
                (JObject [("text", JString " Hello there. Bye. ")])
                "Hello there. Bye." default_ratio default_min_sentences)
    by reflexivity.
  split; [exact D|].
  exact (proj1 (endpoints_on_readable_requests Sample.pow Sample.parse_float
                  Sample.parse_int Sample.no_wordnet
                  (JObject [("text", JString " Hello there. Bye. ")]))
           _ _ _ D).
Defined.

(** C5, as the claim words it, fails: a request with a text and a [null]
    ratio ends in an uncaught [TypeError], so it gets neither the error
    answer nor ["ok": true]; and with a blank text the same happens, where
    the claim promises the error answer. *)
Lemma api_summarize_null_ratio :
  Spec.request_text (JObject [("text", JString "Hello."); ("ratio", JNull)])
    = Some "Hello."
  /\ api_summarize Sample.pow Sample.parse_float Sample.parse_int
       (JObject [("text", JString "Hello."); ("ratio", JNull)]) = Uncaught
  /\ ~ Spec.answers_as_claimed "Hello."
         (api_summarize Sample.pow Sample.parse_float Sample.parse_int
            (JObject [("text", JString "Hello."); ("ratio", JNull)]))
  /\ Spec.request_text (JObject [("text", JString " "); ("ratio", JNull)])
     = Some EmptyString
  /\ api_summarize Sample.pow Sample.parse_float Sample.parse_int
       (JObject [("text", JString " "); ("ratio", JNull)]) = Uncaught
  /\ ~ Spec.answers_as_claimed EmptyString
         (api_summarize Sample.pow Sample.parse_float Sample.parse_int
            (JObject [("text", JString " "); ("ratio", JNull)])).
Proof.
  split; [reflexivity|]. split; [reflexivity|]. split.
  - intros [_ H]. assert (N : "Hello." <> EmptyString) by discriminate.
    specialize (H N). discriminate.
  - split; [reflexivity|]. split; [reflexivity|].
    intros [[_ H] _]. destruct (H eq_refl) as [E _]. discriminate.
Qed.

(** * Further properties *)

(** ** Character classes *)

Lemma isspace_not_word (c : ascii) :
  Char.isspace c = true -> Char.isword c = false.
Proof.
  destruct c as [[] [] [] [] [] [] [] []]; vm_compute; congruence.
Qed.

Lemma terminator_not_space (c : ascii) :
  Char.is_terminator c = true -> Char.isspace c = false.
Proof.
  destruct c as [[] [] [] [] [] [] [] []]; vm_compute; congruence.
Qed.

Lemma terminator_not_word (c : ascii) :
  Char.is_terminator c = true -> Char.isword c = false.
Proof.
  destruct c as [[] [] [] [] [] [] [] []]; vm_compute; congruence.
Qed.

Lemma isword_lower (c : ascii) : Char.isword (Char.lower c) = Char.isword c.
Proof.
  destruct c as [[] [] [] [] [] [] [] []]; vm_compute; reflexivity.
Qed.

(** ** The pieces of a text *)

Lemma push_nonempty (c : ascii) (l : list string) : Re.push c l <> [].
Proof. destruct l; discriminate. Qed.

Lemma split_scan_nonempty (st : Re.scan) (s : string) : Re.split_scan st s <> [].
Proof.
  revert st. induction s as [|c r IH]; intros st; simpl; [discriminate|].
  destruct st as [a|].
  - destruct (a && Char.isspace c); [discriminate | apply push_nonempty].
  - destruct (Char.isspace c); [apply IH | apply push_nonempty].
Qed.

Lemma push_cons (c : ascii) (st : Re.scan) (s : string) :
  exists p ps, Re.split_scan st s = p :: ps
               /\ Re.push c (Re.split_scan st s) = String c p :: ps.
Proof.
  destruct (Re.split_scan st s) as [|p ps] eqn:E.
  - now apply split_scan_nonempty in E.
  - exists p, ps. split; reflexivity.
Qed.

Lemma last_cons (c : ascii) (s : string) :
  Str.last (String c s) = match Str.last s with None => Some c | Some d => Some d end.
Proof. reflexivity. Qed.

Lemma last_some (s : string) : s <> EmptyString -> exists d, Str.last s = Some d.
Proof.
  destruct s as [|c r]; [congruence|]. intros _. rewrite last_cons.
  destruct (Str.last r) as [d|]; eexists; reflexivity.
Qed.

Lemma tight_cons (c : ascii) (p : string) :
  Char.isspace c = false ->
  (forall d, Str.last (String c p) = Some d -> Char.isspace d = false) ->
  Shape.tight (String c p) = true.
Proof.
  intros Hc Hp. unfold Shape.tight. simpl Str.first.
  destruct (Str.last (String c p)) as [d|] eqn:E.
  - now rewrite Hc, (Hp d eq_refl).
  - apply last_none in E. discriminate.
Qed.

(** The pieces cut out of a text that does not end with white space are
    tight, up to the piece under construction. *)
Lemma split_scan_tight (s : string) :
  (forall d, Str.last s = Some d -> Char.isspace d = false) ->
  forall st,
    match st with
    | Re.Piece a =>
        exists p ps,
          Re.split_scan st s = p :: ps
          /\ Forall (fun q => Shape.tight q = true) ps
          /\ (forall d, Str.last p = Some d -> Char.isspace d = false)
          /\ (p = EmptyString -> s = EmptyString \/ a = true)
    | Re.Separator =>
        s <> EmptyString ->
        Forall (fun q => Shape.tight q = true) (Re.split_scan st s)
    end.
Proof.
  induction s as [|c r IH]; intros Hs st.
  - destruct st as [a|]; [|congruence].
    exists EmptyString, []. simpl. repeat split; auto.
  - assert (Hr : forall d, Str.last r = Some d -> Char.isspace d = false).
    { intros d Hd. apply Hs. rewrite last_cons, Hd. reflexivity. }
    assert (Hsp : Char.isspace c = true -> r <> EmptyString).
    { intros Hc E. subst r. rewrite (Hs c eq_refl) in Hc. discriminate. }
    assert (Hpush : forall t, Char.isspace c = false \/ r <> EmptyString ->
              (Char.isspace c = true -> t = false) ->
              exists p ps,
                Re.push c (Re.split_scan (Re.Piece t) r) = String c p :: ps
                /\ Forall (fun q => Shape.tight q = true) ps
                /\ (forall d, Str.last (String c p) = Some d -> Char.isspace d = false)).
    { intros t Hor Ht. destruct (IH Hr (Re.Piece t)) as (p & ps & E & F & L & N).
      exists p, ps. rewrite E. unfold Re.push. split; [reflexivity|]. split; [exact F|].
      intros d. rewrite last_cons. destruct (Str.last p) as [e|] eqn:Lp.
      - intros [= <-]. now apply L.
      - intros [= <-]. apply last_none in Lp. destruct (N Lp) as [Er|Et].
        + subst r. apply Hs. reflexivity.
        + destruct (Char.isspace c) eqn:Hc; [|reflexivity].
          rewrite (Ht eq_refl) in Et. discriminate. }
    destruct st as [a|]; simpl.
    + destruct (a && Char.isspace c) eqn:E.
      * apply andb_true_iff in E. destruct E as [-> Hc].
        exists EmptyString. eexists. split; [reflexivity|].
        split; [exact (IH Hr Re.Separator (Hsp Hc))|].
        split; [discriminate | now right].
      * destruct (Hpush (Char.is_terminator c)) as (p & ps & Ep & F & L).
        -- destruct (Char.isspace c) eqn:Hc; [right; now apply Hsp | now left].
        -- intros Hc. destruct (Char.is_terminator c) eqn:Ht; [|reflexivity].
           apply terminator_not_space in Ht. congruence.
        -- exists (String c p), ps. rewrite Ep. repeat split; auto. discriminate.
    + intros _. destruct (Char.isspace c) eqn:Hc.
      * exact (IH Hr Re.Separator (Hsp eq_refl)).
      * destruct (Hpush (Char.is_terminator c)) as (p & ps & Ep & F & L);
          [now left | congruence |].
        rewrite Ep. constructor; [|exact F].
        now apply tight_cons.
Qed.

(** ** Sentences and pieces *)

Lemma rstrip_id (s : string) :
  (forall d, Str.last s = Some d -> Char.isspace d = false) -> Str.rstrip s = s.
Proof.
  induction s as [|c r IH]; intros H; simpl; [reflexivity|].
  rewrite IH.
  - destruct r as [|e r']; simpl.
    + now rewrite (H c eq_refl).
    + now rewrite andb_false_r.
  - intros d Hd. apply H. rewrite last_cons, Hd. reflexivity.
Qed.

Lemma tight_first_last (s : string) :
  Shape.tight s = true ->
  exists c r, s = String c r /\ Char.isspace c = false
              /\ forall d, Str.last s = Some d -> Char.isspace d = false.
Proof.
  unfold Shape.tight. destruct s as [|c r]; simpl Str.first; [discriminate|].
  destruct (Str.last (String c r)) as [d|]; [|discriminate].
  intros H. apply andb_true_iff in H. destruct H as [Hc Hd].
  apply negb_true_iff in Hc, Hd.
  exists c, r. repeat split; auto. now intros d' [= <-].
Qed.

Lemma tight_strip (s : string) : Shape.tight s = true -> Str.strip s = s.
Proof.
  intros H. destruct (tight_first_last s H) as (c & r & -> & Hc & Hl).
  unfold Str.strip. simpl Str.lstrip. rewrite Hc. now apply rstrip_id.
Qed.

Lemma strip_tight (s : string) :
  Str.strip s <> EmptyString -> Shape.tight (Str.strip s) = true.
Proof.
  intros H. destruct (Str.strip s) as [|c r] eqn:E; [congruence|].
  apply tight_cons.
  - apply (strip_first s). now rewrite E.
  - intros d Hd. apply (strip_last s). now rewrite E.
Qed.

Lemma strip_filter_tight (l : list string) :
  Forall (fun q => Shape.tight q = true) l ->
  List.map Str.strip
    (List.filter (fun s => negb (Str.is_empty (Str.strip s))) l) = l.
Proof.
  induction 1 as [|q l Hq _ IH]; simpl; [reflexivity|].
  rewrite (tight_strip q Hq).
  destruct (tight_first_last q Hq) as (c & r & E & _).
  rewrite E at 1. simpl. now rewrite (tight_strip q Hq), IH.
Qed.

Lemma split_after_terminator_tight (t : string) :
  Shape.tight t = true ->
  Forall (fun q => Shape.tight q = true) (Re.split_after_terminator t).
Proof.
  intros H. destruct (tight_first_last t H) as (c & r & -> & Hc & Hl).
  unfold Re.split_after_terminator. simpl.
  assert (Hr : forall d, Str.last r = Some d -> Char.isspace d = false).
  { intros d Hd. apply Hl. rewrite last_cons, Hd. reflexivity. }
  destruct (split_scan_tight r Hr (Re.Piece (Char.is_terminator c)))
    as (p & ps & E & F & L & N).
  rewrite E. simpl. constructor; [|exact F].
  apply tight_cons; [exact Hc|]. intros d. rewrite last_cons.
  destruct (Str.last p) as [e|] eqn:Lp; intros [= <-]; [now apply L | exact Hc].
Qed.

(** On a text with something else than white space, the sentences are the
    pieces between the separators: lines 47 drops and strips nothing. *)
Lemma split_sentences_pieces (text : string) :
  Str.strip text <> EmptyString ->
  split_sentences text = Re.split_after_terminator (Str.strip text).
Proof.
  intros H. unfold split_sentences.
  apply strip_filter_tight, split_after_terminator_tight, strip_tight, H.
Qed.

Lemma split_sentences_blank (text : string) :
  Str.strip text = EmptyString -> split_sentences text = [].
Proof. unfold split_sentences. intros ->. reflexivity. Qed.

(** X1: [split_sentences] returns no sentence exactly for the texts that are
    empty or hold white space only. *)
Theorem split_sentences_nil_iff (text : string) :
  split_sentences text = [] <-> Str.strip text = EmptyString.
Proof.
  split; [|apply split_sentences_blank].
  intros H. destruct (Str.strip text) as [|c r] eqn:E; [reflexivity|].
  exfalso. rewrite split_sentences_pieces in H by (rewrite E; discriminate).
  rewrite E in H. revert H. apply split_scan_nonempty.
Qed.

(** ** Where a text is cut *)

Lemma all_but_last_decompose {A : Type} (P : A -> Prop) (l before after : list A)
  (x : A) :
  Shape.all_but_last P l -> l = before ++ x :: after -> after <> [] -> P x.
Proof.
  revert l. induction before as [|b before IH]; intros l H E Hne; subst l.
  - simpl in H. destruct after; [congruence | tauto].
  - simpl in H. destruct (before ++ x :: after) as [|y r] eqn:E.
    + now destruct before.
    + destruct H as [_ H]. exact (IH _ H eq_refl Hne).
Qed.

Lemma ends_sentence_cons (c : ascii) (p : string) :
  Shape.ends_sentence p = true \/ (p = EmptyString /\ Char.is_terminator c = true) ->
  Shape.ends_sentence (String c p) = true.
Proof.
  unfold Shape.ends_sentence. rewrite last_cons. intros [H|[-> H]].
  - destruct (Str.last p); [exact H | discriminate].
  - exact H.
Qed.

(** Every piece that is followed by another one ends with a terminator. *)
Lemma split_scan_ends (s : string) (st : Re.scan) :
  match st with
  | Re.Piece a =>
      exists p ps,
        Re.split_scan st s = p :: ps
        /\ Shape.all_but_last (fun q => Shape.ends_sentence q = true) ps
        /\ (ps <> [] -> Shape.ends_sentence p = true
                        \/ (p = EmptyString /\ a = true))
  | Re.Separator =>
      Shape.all_but_last (fun q => Shape.ends_sentence q = true)
                         (Re.split_scan st s)
  end.
Proof.
  revert st. induction s as [|c r IH]; intros st.
  - destruct st as [a|]; simpl; [|exact I].
    exists EmptyString, []. repeat split; auto.
  - assert (Hpush : exists p ps,
              Re.push c (Re.split_scan (Re.Piece (Char.is_terminator c)) r)
              = String c p :: ps
              /\ Shape.all_but_last (fun q => Shape.ends_sentence q = true) ps
              /\ (ps <> [] -> Shape.ends_sentence (String c p) = true)).
    { destruct (IH (Re.Piece (Char.is_terminator c))) as (p & ps & E & A & H).
      exists p, ps. rewrite E. unfold Re.push. repeat split; auto.
      intros Hne. apply ends_sentence_cons. exact (H Hne). }
    destruct st as [a|]; simpl.
    + destruct (a && Char.isspace c) eqn:E.
      * apply andb_true_iff in E. destruct E as [-> _].
        exists EmptyString. eexists. split; [reflexivity|].
        split; [exact (IH Re.Separator) | auto].
      * destruct Hpush as (p & ps & E' & A & H).
        exists (String c p), ps. rewrite E'. repeat split; auto.
    + destruct (Char.isspace c); [exact (IH Re.Separator)|].
      destruct Hpush as (p & ps & E' & A & H). rewrite E'.
      simpl. destruct ps as [|q ps]; [exact I|].
      split; [apply H; discriminate | exact A].
Qed.

Lemma split_after_terminator_ends (t : string) :
  Shape.all_but_last (fun q => Shape.ends_sentence q = true)
                     (Re.split_after_terminator t).
Proof.
  unfold Re.split_after_terminator.
  destruct (split_scan_ends t (Re.Piece false)) as (p & ps & E & A & H).
  rewrite E. simpl. destruct ps as [|q ps]; [exact I|]. split; [|exact A].
  destruct H as [H|[_ H]]; [discriminate | exact H | discriminate].
Qed.

(** X2: [split_sentences] cuts only behind a terminator: every sentence
    that is followed by another one ends with [.], [!] or [?]. *)
Theorem split_sentences_cut_after_terminator (text : string)
  (before after : list string) (s : string) :
  split_sentences text = before ++ s :: after -> after <> [] ->
  Shape.ends_sentence s = true.
Proof.
  intros E Hne.
  apply (all_but_last_decompose (fun q => Shape.ends_sentence q = true)
           (split_sentences text) before after s); [|exact E | exact Hne].
  destruct (Str.strip text) as [|c r] eqn:Es.
  - rewrite split_sentences_blank by exact Es. exact I.
  - rewrite split_sentences_pieces by (rewrite Es; discriminate).
    apply split_after_terminator_ends.
Qed.

Lemma split_sentences_cut_after_terminator_witness :
  split_sentences "Wait... what? No way" = ["Wait..."] ++ "what?" :: ["No way"]
  /\ ["No way"] <> []
  /\ Shape.ends_sentence "what?" = true.
Proof.
  assert (E : split_sentences "Wait... what? No way"
              = ["Wait..."] ++ "what?" :: ["No way"]) by reflexivity.
  assert (N : ["No way"] <> []) by discriminate.
  split; [exact E|]. split; [exact N|].
  exact (split_sentences_cut_after_terminator _ _ _ _ E N).
Defined.

(** ** What a split keeps *)

Lemma nonspace_app (s t : string) :
  Shape.nonspace (s ++ t)%string = (Shape.nonspace s ++ Shape.nonspace t)%string.
Proof.
  induction s as [|c s IH]; simpl; [reflexivity|].
  destruct (Char.isspace c); simpl; now rewrite IH.
Qed.

Lemma concat_push (c : ascii) (l : list string) :
  l <> [] -> Str.concat (Re.push c l) = String c (Str.concat l).
Proof. destruct l; [congruence | reflexivity]. Qed.

Lemma split_scan_nonspace (s : string) (st : Re.scan) :
  Shape.nonspace (Str.concat (Re.split_scan st s)) = Shape.nonspace s.
Proof.
  revert st. induction s as [|c r IH]; intros st; [reflexivity|].
  assert (Hpush : forall t,
            Shape.nonspace (Str.concat (Re.push c (Re.split_scan (Re.Piece t) r)))
            = Shape.nonspace (String c r)).
  { intros t. rewrite concat_push by apply split_scan_nonempty.
    simpl. now rewrite IH. }
  destruct st as [a|]; simpl.
  - destruct (a && Char.isspace c) eqn:E; [|apply Hpush].
    apply andb_true_iff in E. destruct E as [_ ->]. simpl. apply IH.
  - destruct (Char.isspace c) eqn:Hc; [apply IH|].
    specialize (Hpush (Char.is_terminator c)). simpl in Hpush.
    now rewrite Hc in Hpush.
Qed.

Lemma nonspace_lstrip (s : string) :
  Shape.nonspace (Str.lstrip s) = Shape.nonspace s.
Proof.
  induction s as [|c r IH]; simpl; [reflexivity|].
  destruct (Char.isspace c) eqn:Hc; [exact IH|]. simpl. now rewrite Hc.
Qed.

Lemma nonspace_rstrip (s : string) :
  Shape.nonspace (Str.rstrip s) = Shape.nonspace s.
Proof.
  induction s as [|c r IH]; simpl; [reflexivity|].
  destruct (Char.isspace c && Str.is_empty (Str.rstrip r)) eqn:E.
  - apply andb_true_iff in E. destruct E as [Hc He]. rewrite Hc.
    rewrite <- IH. destruct (Str.rstrip r); [reflexivity | discriminate].
  - simpl. now rewrite IH.
Qed.

Lemma nonspace_strip (s : string) :
  Shape.nonspace (Str.strip s) = Shape.nonspace s.
Proof. unfold Str.strip. now rewrite nonspace_rstrip, nonspace_lstrip. Qed.

(** X3: splitting loses white space only: the characters of the sentences
    that are not white space are those of the text, in the same order. *)
Theorem split_sentences_keeps_content (text : string) :
  Shape.nonspace (Str.concat (split_sentences text)) = Shape.nonspace text.
Proof.
  rewrite <- (nonspace_strip text).
  destruct (Str.strip text) as [|c r] eqn:E.
  - rewrite split_sentences_blank by exact E. reflexivity.
  - rewrite split_sentences_pieces by (rewrite E; discriminate).
    rewrite E. apply split_scan_nonspace.
Qed.

(** ** Splitting the joined sentences again *)

Lemma join_cons (sep : string) (c : ascii) (p : string) (ps : list string) :
  Str.join sep (String c p :: ps) = String c (Str.join sep (p :: ps)).
Proof. destruct ps; reflexivity. Qed.

Lemma join_push (c : ascii) (l : list string) :
  l <> [] -> Str.join " " (Re.push c l) = String c (Str.join " " l).
Proof. destruct l as [|p ps]; [congruence | intros _; apply join_cons]. Qed.

Lemma join_empty_head (l : list string) :
  l <> [] -> Str.join " " (EmptyString :: l) = String " " (Str.join " " l).
Proof. destruct l; [congruence | reflexivity]. Qed.

Lemma join_tight (l : list string) :
  Forall (fun q => Shape.tight q = true) l -> l <> [] ->
  Shape.tight (Str.join " " l) = true.
Proof.
  induction 1 as [|q l Hq Hl IH]; [congruence|]. intros _.
  destruct (tight_first_last q Hq) as (c & r & -> & Hc & Hlast).
  rewrite join_cons. apply tight_cons; [exact Hc|].
  rewrite <- join_cons. destruct l as [|q2 l2]; [exact Hlast|].
  intros d Hd.
  assert (T : Shape.tight (Str.join " " (q2 :: l2)) = true)
    by (apply IH; discriminate).
  destruct (tight_first_last _ T) as (c2 & r2 & E2 & _ & L2).
  apply L2. revert Hd.
  change (Str.join " " (String c r :: q2 :: l2))
    with (String c r ++ " " ++ Str.join " " (q2 :: l2))%string.
  rewrite E2. clear.
  generalize (String c r). intros u. induction u as [|e u IHu].
  - simpl. destruct (Str.last r2); auto.
  - intros H. apply IHu. simpl in H |- *.
    destruct (Str.last (u ++ String " " (String c2 r2))) eqn:L; [exact H|].
    apply last_none in L. destruct u; discriminate.
Qed.

(** A string is whole when the scan finds no cut in it. *)
Lemma split_scan_whole (s : string) (st : Re.scan) :
  match st with
  | Re.Piece a =>
      exists p ps,
        Re.split_scan st s = p :: ps
        /\ Re.split_scan (Re.Piece a) p = [p]
        /\ Forall (fun q => Re.split_scan Re.Separator q = [q]) ps
  | Re.Separator =>
      Forall (fun q => Re.split_scan Re.Separator q = [q]) (Re.split_scan st s)
  end.
Proof.
  revert st. induction s as [|c r IH]; intros st.
  - destruct st; simpl; [|now repeat constructor].
    exists EmptyString, []. now repeat split.
  - destruct st as [a|]; simpl Re.split_scan.
    + destruct (a && Char.isspace c) eqn:E.
      * exists EmptyString. eexists. split; [reflexivity|].
        split; [reflexivity | exact (IH Re.Separator)].
      * destruct (IH (Re.Piece (Char.is_terminator c))) as (p & ps & Ep & Wp & F).
        exists (String c p), ps. rewrite Ep. split; [reflexivity|].
        split; [|exact F]. simpl. now rewrite E, Wp.
    + destruct (Char.isspace c) eqn:Hc; [exact (IH Re.Separator)|].
      destruct (IH (Re.Piece (Char.is_terminator c))) as (p & ps & Ep & Wp & F).
      rewrite Ep. simpl. constructor; [|exact F]. simpl. now rewrite Hc, Wp.
Qed.

Lemma separator_as_piece (q : string) :
  Shape.tight q = true ->
  Re.split_scan Re.Separator q = Re.split_scan (Re.Piece false) q.
Proof.
  intros H. destruct (tight_first_last q H) as (c & r & -> & Hc & _).
  simpl. now rewrite Hc.
Qed.

Lemma split_after_terminator_whole (t : string) :
  Shape.tight t = true ->
  Forall (fun q => Re.split_after_terminator q = [q]) (Re.split_after_terminator t).
Proof.
  intros H. pose proof (split_after_terminator_tight t H) as T.
  unfold Re.split_after_terminator in *.
  destruct (split_scan_whole t (Re.Piece false)) as (p & ps & E & Wp & F).
  rewrite E in *. inversion T as [|? ? Tp Tps]; subst.
  constructor; [exact Wp|].
  rewrite Forall_forall in *. intros q Hq.
  rewrite <- separator_as_piece by now apply Tps. now apply F.
Qed.

Lemma split_scan_app (p rest : string) (a : bool) :
  Re.split_scan (Re.Piece a) p = [p] ->
  exists q qs,
    Re.split_scan (Re.Piece (Shape.after_string a p)) rest = q :: qs
    /\ Re.split_scan (Re.Piece a) (p ++ rest)%string = (p ++ q)%string :: qs.
Proof.
  revert a. induction p as [|c p IH]; intros a H.
  - destruct (Re.split_scan (Re.Piece a) rest) as [|q qs] eqn:E.
    + now apply split_scan_nonempty in E.
    + exists q, qs. unfold Shape.after_string. simpl. now rewrite E.
  - simpl in H. destruct (a && Char.isspace c) eqn:E.
    + exfalso. injection H as H _. discriminate.
    + destruct (push_cons c (Re.Piece (Char.is_terminator c)) p)
        as (p0 & ps0 & E0 & P0).
      rewrite P0 in H. injection H as Hp Hps. subst p0 ps0.
      destruct (IH _ E0) as (q & qs & Eq & Ea).
      exists q, qs. split.
      * unfold Shape.after_string in *. rewrite last_cons.
        destruct (Str.last p); exact Eq.
      * simpl. now rewrite E, Ea.
Qed.

(** Sentence-like strings joined by single spaces split into themselves. *)
Lemma split_join_whole (l : list string) :
  Forall (fun q => Shape.tight q = true) l ->
  Forall (fun q => Re.split_after_terminator q = [q]) l ->
  Shape.all_but_last (fun q => Shape.ends_sentence q = true) l ->
  l <> [] ->
  Re.split_after_terminator (Str.join " " l) = l.
Proof.
  induction l as [|p l IH]; intros T W E Hne; [congruence|].
  inversion T as [|? ? Tp Tl]; subst. inversion W as [|? ? Wp Wl]; subst.
  destruct l as [|p2 l2]; [exact Wp|].
  destruct E as [Ep El].
  assert (J : Shape.tight (Str.join " " (p2 :: l2)) = true)
    by (apply join_tight; [exact Tl | discriminate]).
  assert (R : Re.split_after_terminator (Str.join " " (p2 :: l2)) = p2 :: l2)
    by (apply IH; auto; discriminate).
  change (Str.join " " (p :: p2 :: l2))
    with (p ++ String " " (Str.join " " (p2 :: l2)))%string.
  revert J R. generalize (Str.join " " (p2 :: l2)). intros rest J R.
  unfold Re.split_after_terminator in *.
  destruct (split_scan_app p (String " " rest) false Wp) as (q & qs & Eq & Ea).
  rewrite Ea.
  assert (S : Shape.after_string false p = true).
  { unfold Shape.after_string, Shape.ends_sentence in *.
    destruct (Str.last p); [exact Ep | discriminate]. }
  rewrite S in Eq.
  change (Re.split_scan (Re.Piece true) (String " " rest))
    with (EmptyString :: Re.split_scan Re.Separator rest) in Eq.
  injection Eq as <- <-.
  rewrite (separator_as_piece _ J), R.
  f_equal. clear. induction p as [|c p IHp]; simpl; [reflexivity | now rewrite IHp].
Qed.

Lemma subseq_Forall {A : Type} (P : A -> Prop) (l1 l2 : list A) :
  subseq l1 l2 -> Forall P l2 -> Forall P l1.
Proof.
  induction 1 as [|x l1 l2 _ IH|x l1 l2 _ IH]; intros F; [constructor| |];
    inversion F; subst; [now apply IH | constructor; [assumption | now apply IH]].
Qed.

Lemma subseq_nil_r {A : Type} (l : list A) : subseq l [] -> l = [].
Proof. now inversion 1. Qed.

Lemma subseq_all_but_last {A : Type} (P : A -> Prop) (l1 l2 : list A) :
  subseq l1 l2 -> Shape.all_but_last P l2 -> Shape.all_but_last P l1.
Proof.
  induction 1 as [|x l1 l2 S IH|x l1 l2 S IH]; intros H; [exact I| |].
  - apply IH. simpl in H. destruct l2; [exact I | tauto].
  - simpl in H |- *. destruct l1 as [|y l1]; [exact I|].
    destruct l2 as [|z l2]; [apply subseq_nil_r in S; discriminate|].
    destruct H as [Hx H]. split; [exact Hx | now apply IH].
Qed.

Lemma split_sentences_selection (text : string) (selection : list string) :
  subseq selection (split_sentences text) ->
  split_sentences (Str.join " " selection) = selection.
Proof.
  intros S. destruct selection as [|p l]; [reflexivity|].
  destruct (Str.strip text) as [|c r] eqn:E.
  - rewrite (split_sentences_blank text E) in S. apply subseq_nil_r in S.
    discriminate.
  - assert (Hne : Str.strip text <> EmptyString) by (rewrite E; discriminate).
    rewrite (split_sentences_pieces text Hne) in S.
    pose proof (strip_tight text Hne) as Tt.
    assert (T : Forall (fun q => Shape.tight q = true) (p :: l))
      by exact (subseq_Forall _ _ _ S (split_after_terminator_tight _ Tt)).
    assert (J : Shape.tight (Str.join " " (p :: l)) = true)
      by (apply join_tight; [exact T | discriminate]).
    destruct (tight_first_last _ J) as (c2 & r2 & E2 & _).
    rewrite split_sentences_pieces; rewrite (tight_strip _ J);
      [|rewrite E2; discriminate].
    apply split_join_whole; [exact T | | | discriminate].
    + exact (subseq_Forall _ _ _ S (split_after_terminator_whole _ Tt)).
    + exact (subseq_all_but_last _ _ _ S (split_after_terminator_ends _)).
Qed.

(** X4: any selection of the sentences of a text, joined by single spaces
    in their order, splits into exactly the selected sentences; so does
    the whole list. *)
Theorem split_sentences_join_selection (text : string)
  (selection : list string) :
  subseq selection (split_sentences text) ->
  split_sentences (Str.join " " selection) = selection.
Proof. apply split_sentences_selection. Qed.

Lemma split_sentences_join_selection_witness :
  subseq ["One."; "Three"] (split_sentences " One. Two!  Three ")
  /\ split_sentences (Str.join " " ["One."; "Three"]) = ["One."; "Three"].
Proof.
  assert (H : subseq ["One."; "Three"] (split_sentences " One. Two!  Three "))
    by (vm_compute; repeat constructor).
  split; [exact H|].
  exact (split_sentences_join_selection " One. Two!  Three " _ H).
Defined.

(** ** The words of the sentences *)

Lemma cons_nonempty_app (w : string) (ws more : list string) :
  Re.cons_nonempty w (ws ++ more) = Re.cons_nonempty w ws ++ more.
Proof. unfold Re.cons_nonempty. now destruct (Str.is_empty w). Qed.

Lemma word_runs_cons (c : ascii) (r : string) :
  Re.word_runs (String c r)
  = if Char.isword c
    then (String c (fst (Re.word_runs r)), snd (Re.word_runs r))
    else (EmptyString, Re.findall_words r).
Proof.
  simpl. unfold Re.findall_words. destruct (Re.word_runs r) as [w ws].
  reflexivity.
Qed.

Lemma findall_words_pair (s : string) :
  Re.findall_words s
  = Re.cons_nonempty (fst (Re.word_runs s)) (snd (Re.word_runs s)).
Proof. unfold Re.findall_words. now destruct (Re.word_runs s). Qed.

Lemma findall_words_space (c : ascii) (r : string) :
  Char.isword c = false -> Re.findall_words (String c r) = Re.findall_words r.
Proof.
  intros H. rewrite (findall_words_pair (String c r)), word_runs_cons, H.
  reflexivity.
Qed.

(** No word run crosses a cut: the runs of a text are those of its pieces. *)
Lemma split_scan_words (s : string) (st : Re.scan) :
  match st with
  | Re.Piece a =>
      exists p ps,
        Re.split_scan st s = p :: ps
        /\ Re.word_runs s
           = (fst (Re.word_runs p),
              snd (Re.word_runs p) ++ List.concat (List.map Re.findall_words ps))
  | Re.Separator =>
      Re.findall_words s
      = List.concat (List.map Re.findall_words (Re.split_scan st s))
  end.
Proof.
  revert st. induction s as [|c r IH]; intros st.
  - destruct st; simpl; [|reflexivity]. exists EmptyString, []. now split.
  - assert (Hpush : forall t, exists p ps,
              Re.push c (Re.split_scan (Re.Piece t) r) = String c p :: ps
              /\ Re.word_runs (String c r)
                 = (fst (Re.word_runs (String c p)),
                    snd (Re.word_runs (String c p))
                    ++ List.concat (List.map Re.findall_words ps))).
    { intros t. destruct (IH (Re.Piece t)) as (p & ps & E & W).
      exists p, ps. rewrite E. split; [reflexivity|].
      rewrite !word_runs_cons, !findall_words_pair, W. simpl.
      destruct (Char.isword c); simpl; [reflexivity|].
      now rewrite cons_nonempty_app. }
    destruct st as [a|]; simpl Re.split_scan.
    + destruct (a && Char.isspace c) eqn:E.
      * apply andb_true_iff in E. destruct E as [_ Hc].
        exists EmptyString. eexists. split; [reflexivity|].
        rewrite word_runs_cons, (isspace_not_word c Hc). simpl.
        now rewrite (IH Re.Separator).
      * destruct (Hpush (Char.is_terminator c)) as (p & ps & E' & W).
        exists (String c p), ps. now rewrite E'.
    + destruct (Char.isspace c) eqn:Hc.
      * rewrite findall_words_space by now apply isspace_not_word.
        exact (IH Re.Separator).
      * destruct (Hpush (Char.is_terminator c)) as (p & ps & E' & W).
        rewrite E'. cbn [List.map List.concat].
        rewrite (findall_words_pair (String c r)), W. cbn [fst snd].
        now rewrite cons_nonempty_app, <- findall_words_pair.
Qed.

Lemma split_after_terminator_words (t : string) :
  Re.findall_words t
  = List.concat (List.map Re.findall_words (Re.split_after_terminator t)).
Proof.
  unfold Re.split_after_terminator.
  destruct (split_scan_words t (Re.Piece false)) as (p & ps & E & W).
  rewrite E. cbn [List.map List.concat].
  rewrite (findall_words_pair t), W. cbn [fst snd].
  now rewrite cons_nonempty_app, <- findall_words_pair.
Qed.

Lemma findall_words_lstrip (s : string) :
  Re.findall_words (Str.lstrip s) = Re.findall_words s.
Proof.
  induction s as [|c r IH]; simpl Str.lstrip; [reflexivity|].
  destruct (Char.isspace c) eqn:Hc; [|reflexivity].
  rewrite IH. symmetry. now apply findall_words_space, isspace_not_word.
Qed.

Lemma word_runs_rstrip (s : string) :
  Re.word_runs (Str.rstrip s) = Re.word_runs s.
Proof.
  induction s as [|c r IH]; [reflexivity|]. simpl Str.rstrip.
  destruct (Char.isspace c && Str.is_empty (Str.rstrip r)) eqn:E.
  - apply andb_true_iff in E. destruct E as [Hc He].
    rewrite word_runs_cons, (isspace_not_word c Hc).
    rewrite findall_words_pair, <- IH.
    destruct (Str.rstrip r); [reflexivity | discriminate].
  - now rewrite !word_runs_cons, !findall_words_pair, IH.
Qed.

Lemma findall_words_strip (s : string) :
  Re.findall_words (Str.strip s) = Re.findall_words s.
Proof.
  unfold Str.strip. rewrite findall_words_pair, word_runs_rstrip.
  rewrite <- findall_words_pair. apply findall_words_lstrip.
Qed.

Lemma word_runs_lower (s : string) :
  Re.word_runs (Str.lower s)
  = (Str.lower (fst (Re.word_runs s)), List.map Str.lower (snd (Re.word_runs s))).
Proof.
  induction s as [|c r IH]; [reflexivity|].
  change (Str.lower (String c r)) with (String (Char.lower c) (Str.lower r)).
  rewrite !word_runs_cons, isword_lower, !findall_words_pair, IH. simpl.
  destruct (Char.isword c); [reflexivity|]. f_equal.
  unfold Re.cons_nonempty. now destruct (fst (Re.word_runs r)).
Qed.

Lemma words_of_map_lower (s : string) :
  Spec.words_of s = List.map Str.lower (Re.findall_words s).
Proof.
  unfold Spec.words_of. rewrite !findall_words_pair, word_runs_lower. simpl.
  unfold Re.cons_nonempty. now destruct (fst (Re.word_runs s)).
Qed.

Lemma words_of_split (text : string) :
  Spec.words_of text
  = List.concat (List.map Spec.words_of (split_sentences text)).
Proof.
  rewrite words_of_map_lower, <- (findall_words_strip text).
  destruct (Str.strip text) as [|c r] eqn:E.
  - rewrite (split_sentences_blank text E). reflexivity.
  - rewrite split_sentences_pieces by (rewrite E; discriminate). rewrite E.
    rewrite (split_after_terminator_words (String c r)), concat_map, map_map.
    f_equal. apply map_ext. intros s. symmetry. apply words_of_map_lower.
Qed.

(** X5: the words of a text are the words of its sentences, sentence after
    sentence: no word is cut in two, lost or counted twice. *)
Theorem words_of_sentences (text : string) :
  Spec.words_of text
  = List.concat (List.map Spec.words_of (split_sentences text)).
Proof. exact (words_of_split text). Qed.

(** X6: every word of every sentence that is no stopword has its entry in
    the frequency table of the text: its occurrences over those of the
    most frequent content word, the former between 1 and the latter. *)
Theorem sentence_words_in_table {num : Type} (int_div : Z -> Z -> num)
  (text s w : string) :
  In s (split_sentences text) -> In w (Spec.words_of s) ->
  Str.mem w STOPWORDS = false ->
  Dict.get (word_freqs int_div text) w
    = Some (int_div (Spec.occurrences text w) (Spec.max_occurrences text))
  /\ (1 <= Spec.occurrences text w <= Spec.max_occurrences text)%Z.
Proof.
  intros Hs Hw Hstop.
  assert (Hin : In w (Spec.words_of text)).
  { rewrite words_of_split. apply in_concat. exists (Spec.words_of s).
    split; [now apply in_map | exact Hw]. }
  pose proof (count_words_content (Spec.words_of text) w Hstop Hin) as G.
  unfold word_freqs. fold (Spec.words_of text). rewrite normalize_get, G.
  fold (Spec.occurrences text w).
  destruct (Py.max (Dict.values (count_words (Spec.words_of text))))
    as [m|] eqn:Hm.
  - destruct (count_words_max text m Hm) as [-> _].
    apply py_max_spec in Hm. destruct Hm as [_ Hle].
    split; [reflexivity|]. split.
    + apply count_words_entry in G. tauto.
    + apply Hle. exact (get_In_values _ _ _ G).
  - exfalso. apply get_In_values in G.
    destruct (Dict.values (count_words (Spec.words_of text)));
      [contradiction | discriminate].
Qed.

Lemma sentence_words_in_table_witness :
  In "The cat ran." (split_sentences "The cat sat. The cat ran.")
  /\ In "cat" (Spec.words_of "The cat ran.")
  /\ Str.mem "cat" STOPWORDS = false
  /\ Dict.get (word_freqs Py.true_div "The cat sat. The cat ran.") "cat"
     = Some (Py.true_div (Spec.occurrences "The cat sat. The cat ran." "cat")
                         (Spec.max_occurrences "The cat sat. The cat ran."))
  /\ (1 <= Spec.occurrences "The cat sat. The cat ran." "cat"
        <= Spec.max_occurrences "The cat sat. The cat ran.")%Z.
Proof.
  assert (H1 : In "The cat ran." (split_sentences "The cat sat. The cat ran."))
    by (vm_compute; auto).
  assert (H2 : In "cat" (Spec.words_of "The cat ran.")) by (vm_compute; auto).
  assert (H3 : Str.mem "cat" STOPWORDS = false) by reflexivity.
  split; [exact H1|]. split; [exact H2|]. split; [exact H3|].
  exact (sentence_words_in_table Py.true_div _ _ _ H1 H2 H3).
Defined.

(** X7: the table of counts built by the loop of lines 58-61 has an entry
    for a word exactly when the word is no stopword and occurs among the
    words, and the entry is the number of its occurrences. *)
Theorem count_words_counts (words : list string) (w : string) (c : Z) :
  Dict.get (count_words words) w = Some c
  <-> Str.mem w STOPWORDS = false /\ In w words
      /\ c = Z.of_nat (count_occ string_dec words w).
Proof.
  split.
  - intros H. apply count_words_entry in H. tauto.
  - intros (Hs & Hin & ->). now apply count_words_content.
Qed.

(** ** The order of the scores *)

Ltac compare_cases :=
  repeat match goal with
  | H : context [PosDef.Pos.compare_cont Eq ?a ?b] |- _ =>
      change (PosDef.Pos.compare_cont Eq a b) with (Pos.compare a b) in H
  | |- context [PosDef.Pos.compare_cont Eq ?a ?b] =>
      change (PosDef.Pos.compare_cont Eq a b) with (Pos.compare a b)
  end;
  repeat match goal with
  | H : context [Z.compare ?a ?b] |- _ =>
      destruct (Z.compare_spec a b); simpl in H
  | H : context [Pos.compare ?a ?b] |- _ =>
      destruct (Pos.compare_spec a b); simpl in H
  | |- context [Z.compare ?a ?b] => destruct (Z.compare_spec a b); simpl
  | |- context [Pos.compare ?a ?b] => destruct (Pos.compare_spec a b); simpl
  end;
  try congruence; try lia.

Lemma SFltb_asym (a b : spec_float) : SFltb a b = true -> SFltb b a = false.
Proof.
  unfold SFltb. destruct a as [s1|s1| |s1 m1 e1], b as [s2|s2| |s2 m2 e2];
    simpl; try congruence;
    try (destruct s1; simpl; congruence);
    try (destruct s2; simpl; congruence);
    try (destruct s1, s2; simpl; congruence).
  destruct s1, s2; simpl; try congruence; intros H; compare_cases.
Qed.

Lemma SFltb_ge_trans (a b c : spec_float) :
  b <> S754_nan ->
  SFltb a b = false -> SFltb b c = false -> SFltb a c = false.
Proof.
  unfold SFltb. intros Hb.
  destruct a as [s1|s1| |s1 m1 e1], b as [s2|s2| |s2 m2 e2],
           c as [s3|s3| |s3 m3 e3];
    simpl; try congruence;
    try (destruct s1; simpl; congruence);
    try (destruct s2; simpl; congruence);
    try (destruct s3; simpl; congruence);
    try (destruct s1, s2; simpl; congruence);
    try (destruct s1, s3; simpl; congruence);
    try (destruct s2, s3; simpl; congruence);
    try (destruct s1, s2, s3; simpl; congruence);
    destruct s1, s2, s3; simpl; try congruence; intros H1 H2; compare_cases.
Qed.

Lemma not_nan_spec (x : float) :
  PrimFloat.is_nan x = false -> Prim2SF x <> S754_nan.
Proof.
  unfold PrimFloat.is_nan. rewrite eqb_spec. intros H E. rewrite E in H.
  discriminate.
Qed.

Lemma ltb_asym (x y : float) :
  PrimFloat.ltb x y = true -> PrimFloat.ltb y x = false.
Proof. rewrite !ltb_spec. apply SFltb_asym. Qed.

Lemma ltb_ge_trans (x y z : float) :
  PrimFloat.is_nan y = false ->
  PrimFloat.ltb x y = false -> PrimFloat.ltb y z = false ->
  PrimFloat.ltb x z = false.
Proof.
  rewrite !ltb_spec. intros H. apply SFltb_ge_trans. now apply not_nan_spec.
Qed.

Lemma no_nan_In {A : Type} (l : list (A * float)) (p : A * float) :
  Order.no_nan l = true -> In p l -> PrimFloat.is_nan (snd p) = false.
Proof.
  unfold Order.no_nan. rewrite forallb_forall. intros H Hp.
  apply negb_true_iff. now apply H.
Qed.

Lemma insert_desc_descending {A : Type} (x : A * float) (l : list (A * float)) :
  Order.no_nan l = true -> Order.descending l ->
  Order.descending (Py.insert_desc x l).
Proof.
  induction l as [|y ys IH]; intros Hn Hd; simpl.
  - split; [constructor | exact I].
  - destruct Hd as [Hy Hys].
    assert (Hn' : Order.no_nan ys = true)
      by (unfold Order.no_nan in *; simpl in Hn; now apply andb_true_iff in Hn).
    destruct (PrimFloat.ltb (snd x) (snd y)) eqn:E; simpl.
    + split; [|now apply IH].
      rewrite Forall_forall in *. intros z Hz.
      apply (Permutation_in _ (Permutation_sym (insert_desc_perm x ys))) in Hz.
      destruct Hz as [<-|Hz]; [now apply ltb_asym | now apply Hy].
    + split; [|split; assumption].
      constructor; [exact E|].
      rewrite Forall_forall in *. intros z Hz.
      apply (ltb_ge_trans _ (snd y)); [|exact E | now apply Hy].
      apply (no_nan_In (y :: ys)); [exact Hn | now left].
Qed.

Lemma no_nan_perm {A : Type} (l l' : list (A * float)) :
  Permutation l l' -> Order.no_nan l = true -> Order.no_nan l' = true.
Proof.
  unfold Order.no_nan. rewrite !forallb_forall. intros P H p Hp.
  apply H. exact (Permutation_in _ (Permutation_sym P) Hp).
Qed.

Lemma sorted_desc_descending {A : Type} (l : list (A * float)) :
  Order.no_nan l = true -> Order.descending (Py.sorted_desc l).
Proof.
  induction l as [|x l IH]; intros Hn; simpl; [exact I|].
  assert (Hn' : Order.no_nan l = true)
    by (unfold Order.no_nan in *; simpl in Hn; now apply andb_true_iff in Hn).
  apply insert_desc_descending; [|now apply IH].
  exact (no_nan_perm _ _ (sorted_desc_perm l) Hn').
Qed.

Lemma descending_app {A : Type} (l1 l2 : list (A * float)) (a b : A * float) :
  Order.descending (l1 ++ l2) -> In a l1 -> In b l2 ->
  PrimFloat.ltb (snd a) (snd b) = false.
Proof.
  induction l1 as [|x l1 IH]; simpl; [contradiction|].
  intros [Hx Hd] [<-|Ha] Hb.
  - rewrite Forall_forall in Hx. apply Hx, in_or_app. now right.
  - now apply IH.
Qed.

Lemma slice_to_firstn {A : Type} (k : Z) (l : list A) :
  exists j, Py.slice_to k l = firstn j l.
Proof.
  unfold Py.slice_to. destruct (0 <=? k)%Z; eexists; reflexivity.
Qed.

Lemma sent_scores_In (pow : float -> float -> float)
  (text : string) (sentences : list string)
  (p : string * float) :
  In p (sent_scores pow text sentences)
  <-> In (fst p) sentences /\ snd p = Order.score pow text (fst p).
Proof.
  unfold sent_scores. rewrite in_map_iff. split.
  - intros [s [<- Hs]]. now split.
  - intros [Hs E]. exists (fst p). split; [|exact Hs].
    destruct p as [s x]. simpl in *. now rewrite E.
Qed.

(** X11: the summary holds the best-scored sentences: as long as no score
    is a NaN, no sentence of the summary has a score below that of a
    sentence that was left out. *)
Theorem summarize_text_top_scores (pow : float -> float -> float)
  (text : string) (ratio : float)
  (min_sentences : Z) (summary : list string) (s s' : string) :
  Order.no_nan (sent_scores pow text (split_sentences text)) = true ->
  summarize_text pow text ratio min_sentences = Some summary ->
  In s summary -> In s' (split_sentences text) -> ~ In s' summary ->
  PrimFloat.ltb (Order.score pow text s) (Order.score pow text s') = false.
Proof.
  intros Hn Hsum Hs Hs' Hout. unfold summarize_text in Hsum.
  destruct (Z.of_nat (List.length (split_sentences text)) <=? min_sentences)%Z.
  - injection Hsum as <-. contradiction.
  - destruct (keep_count _ ratio min_sentences) as [k|]; [|discriminate].
    injection Hsum as <-.
    set (scores := sent_scores pow text (split_sentences text)) in *.
    destruct (slice_to_firstn k (Py.sorted_desc scores)) as [j Ej].
    rewrite Ej in *.
    pose proof (sorted_desc_perm scores) as P.
    pose proof (sorted_desc_descending scores Hn) as D.
    rewrite <- (firstn_skipn j (Py.sorted_desc scores)) in D.
    apply filter_In in Hs. destruct Hs as [_ Hs].
    apply mem_In, in_map_iff in Hs. destruct Hs as [p [Ep Hp]].
    assert (Hp' : In p scores).
    { apply (Permutation_in _ (Permutation_sym P)). now apply In_firstn in Hp. }
    apply sent_scores_In in Hp'. destruct Hp' as [_ Sp]. rewrite Ep in Sp.
    assert (Hq : In (s', Order.score pow text s') (Py.sorted_desc scores)).
    { apply (Permutation_in _ P). apply sent_scores_In. now split. }
    rewrite <- (firstn_skipn j (Py.sorted_desc scores)) in Hq.
    apply in_app_or in Hq. destruct Hq as [Hq|Hq].
    + exfalso. apply Hout. apply filter_In. split; [exact Hs'|].
      apply mem_In, in_map_iff. now exists (s', Order.score pow text s').
    + rewrite <- Sp. exact (descending_app _ _ _ _ D Hp Hq).
Qed.

Lemma summarize_text_top_scores_witness :
  Order.no_nan (sent_scores Sample.pow "The cat sat. The cat ran away. Dogs bark."
                  (split_sentences "The cat sat. The cat ran away. Dogs bark."))
    = true
  /\ summarize_text Sample.pow "The cat sat. The cat ran away. Dogs bark." default_ratio 1
     = Some ["The cat ran away."]
  /\ In "The cat ran away." ["The cat ran away."]
  /\ In "Dogs bark." (split_sentences "The cat sat. The cat ran away. Dogs bark.")
  /\ ~ In "Dogs bark." ["The cat ran away."]
  /\ PrimFloat.ltb
       (Order.score Sample.pow "The cat sat. The cat ran away. Dogs bark."
          "The cat ran away.")
       (Order.score Sample.pow "The cat sat. The cat ran away. Dogs bark." "Dogs bark.")
     = false.
Proof.
  assert (H1 : Order.no_nan
                 (sent_scores Sample.pow "The cat sat. The cat ran away. Dogs bark."
                    (split_sentences "The cat sat. The cat ran away. Dogs bark."))
               = true) by (vm_compute; reflexivity).
  assert (H2 : summarize_text Sample.pow "The cat sat. The cat ran away. Dogs bark."
                 default_ratio 1 = Some ["The cat ran away."])
    by (vm_compute; reflexivity).
  assert (H3 : In "The cat ran away." ["The cat ran away."]) by (now left).
  assert (H4 : In "Dogs bark."
                 (split_sentences "The cat sat. The cat ran away. Dogs bark."))
    by (vm_compute; auto).
  assert (H5 : ~ In "Dogs bark." ["The cat ran away."])
    by (intros [E|[]]; discriminate).
  repeat (split; [assumption|]).
  exact (summarize_text_top_scores Sample.pow _ _ _ _ _ _ H1 H2 H3 H4 H5).
Defined.

(** ** How many sentences a summary has *)

Lemma filter_perm {A : Type} (f : A -> bool) (l l' : list A) :
  Permutation l l' -> Permutation (List.filter f l) (List.filter f l').
Proof.
  induction 1 as [|x l l' _ IH|x y l|l l' l'' _ IH1 _ IH2]; simpl.
  - constructor.
  - destruct (f x); [now constructor | exact IH].
  - destruct (f x), (f y); try reflexivity. apply perm_swap.
  - now transitivity (List.filter f l').
Qed.

Lemma filter_all {A : Type} (f : A -> bool) (l : list A) :
  (forall x, In x l -> f x = true) -> List.filter f l = l.
Proof.
  induction l as [|x l IH]; intros H; simpl; [reflexivity|].
  rewrite (H x) by now left. f_equal. apply IH. intros y Hy. apply H. now right.
Qed.

Lemma filter_prefix_length {A : Type} (f : A -> bool) (n : nat) (p : list A) :
  (forall x, In x (firstn n p) -> f x = true) ->
  (List.length (firstn n p) <= List.length (List.filter f p))%nat.
Proof.
  intros H.
  replace (List.filter f p)
    with (List.filter f (firstn n p ++ skipn n p))
    by (now rewrite firstn_skipn).
  rewrite filter_app, List.length_app, (filter_all f (firstn n p) H). lia.
Qed.

(** Keeping what is among the first [n] of a rearrangement keeps at least
    [n] items. *)
Lemma filter_firstn_at_least (n : nat) (l p : list string) :
  Permutation l p -> (n <= List.length l)%nat ->
  (n <= List.length (List.filter (fun s => Str.mem s (firstn n p)) l))%nat.
Proof.
  intros Hp Hn.
  rewrite (Permutation_length (filter_perm _ _ _ Hp)).
  pose proof (filter_prefix_length (fun s => Str.mem s (firstn n p)) n p) as H.
  rewrite length_firstn, <- (Permutation_length Hp) in H.
  assert (G : forall x, In x (firstn n p) -> Str.mem x (firstn n p) = true)
    by (intros x Hx; now apply mem_In).
  specialize (H G). lia.
Qed.

(** X8: with more sentences than [min_sentences] and a count [k] that is
    not negative, the summary has at least [k] sentences and at most as
    many as the text. *)
Theorem summarize_text_size (pow : float -> float -> float)
  (text : string) (ratio : float)
  (min_sentences k : Z) :
  (min_sentences < Z.of_nat (List.length (split_sentences text)))%Z ->
  keep_count (List.length (split_sentences text)) ratio min_sentences = Some k ->
  (0 <= k)%Z ->
  exists summary,
    summarize_text pow text ratio min_sentences = Some summary
    /\ (k <= Z.of_nat (List.length summary)
          <= Z.of_nat (List.length (split_sentences text)))%Z.
Proof.
  intros Hlt Hk Hpos. unfold summarize_text.
  apply Z.leb_gt in Hlt. rewrite Hlt, Hk.
  eexists. split; [reflexivity|].
  unfold Py.slice_to. apply Z.leb_le in Hpos as Hb. rewrite Hb.
  rewrite <- firstn_map. split.
  - pose proof (filter_firstn_at_least (Z.to_nat k) (split_sentences text)
                  (List.map fst (Py.sorted_desc
                                   (sent_scores pow text (split_sentences text)))))
      as H.
    apply keep_count_le in Hk.
    assert (Hperm : Permutation (split_sentences text)
              (List.map fst (Py.sorted_desc
                               (sent_scores pow text (split_sentences text))))).
    { rewrite <- (sent_scores_fst pow text (split_sentences text)) at 1.
      apply Permutation_map, sorted_desc_perm. }
    specialize (H Hperm ltac:(lia)). lia.
  - apply inj_le, filter_length_le.
Qed.

Lemma summarize_text_size_witness :
  (1 < Z.of_nat (List.length (split_sentences "Hi. Hi. Bye.")))%Z
  /\ keep_count (List.length (split_sentences "Hi. Hi. Bye.")) default_ratio 1
     = Some 1%Z
  /\ (0 <= 1)%Z
  /\ exists summary,
       summarize_text Sample.pow "Hi. Hi. Bye." default_ratio 1 = Some summary
       /\ (1 <= Z.of_nat (List.length summary)
             <= Z.of_nat (List.length (split_sentences "Hi. Hi. Bye.")))%Z.
Proof.
  assert (H1 : (1 < Z.of_nat (List.length (split_sentences "Hi. Hi. Bye.")))%Z)
    by (vm_compute; reflexivity).
  assert (H2 : keep_count (List.length (split_sentences "Hi. Hi. Bye."))
                 default_ratio 1 = Some 1%Z) by (vm_compute; reflexivity).
  assert (H3 : (0 <= 1)%Z) by lia.
  repeat (split; [assumption|]).
  exact (summarize_text_size Sample.pow "Hi. Hi. Bye." default_ratio 1 1 H1 H2 H3).
Defined.

(** X9: with pairwise distinct sentences, more of them than
    [min_sentences] and a count [k] that is not negative, the summary has
    exactly [k] sentences. *)
Theorem summarize_text_exact_count (pow : float -> float -> float)
  (text : string) (ratio : float)
  (min_sentences k : Z) :
  NoDup (split_sentences text) ->
  (min_sentences < Z.of_nat (List.length (split_sentences text)))%Z ->
  keep_count (List.length (split_sentences text)) ratio min_sentences = Some k ->
  (0 <= k)%Z ->
  exists summary,
    summarize_text pow text ratio min_sentences = Some summary
    /\ Z.of_nat (List.length summary) = k.
Proof. apply summarize_text_count_distinct. Qed.

Lemma summarize_text_exact_count_witness :
  NoDup (split_sentences "The cat sat. The cat ran away. Dogs bark.")
  /\ (1 < Z.of_nat (List.length
                      (split_sentences "The cat sat. The cat ran away. Dogs bark.")))%Z
  /\ keep_count
       (List.length (split_sentences "The cat sat. The cat ran away. Dogs bark."))
       0.5%float 1 = Some 2%Z
  /\ (0 <= 2)%Z
  /\ exists summary,
       summarize_text Sample.pow "The cat sat. The cat ran away. Dogs bark." 0.5%float 1
         = Some summary
       /\ Z.of_nat (List.length summary) = 2%Z.
Proof.
  assert (H1 : NoDup (split_sentences "The cat sat. The cat ran away. Dogs bark.")).
  { vm_compute. repeat constructor; simpl; intuition discriminate. }
  assert (H2 : (1 < Z.of_nat (List.length
                   (split_sentences "The cat sat. The cat ran away. Dogs bark.")))%Z)
    by (vm_compute; reflexivity).
  assert (H3 : keep_count
                 (List.length
                    (split_sentences "The cat sat. The cat ran away. Dogs bark."))
                 0.5%float 1 = Some 2%Z) by (vm_compute; reflexivity).
  assert (H4 : (0 <= 2)%Z) by lia.
  repeat (split; [assumption|]).
  exact (summarize_text_exact_count Sample.pow _ _ _ _ H1 H2 H3 H4).
Defined.

(** X10: when the count to keep is the number of sentences, as with a ratio
    of 1 or more, the summary is the whole list of sentences. *)
Theorem summarize_text_keep_all (pow : float -> float -> float)
  (text : string) (ratio : float)
  (min_sentences : Z) :
  keep_count (List.length (split_sentences text)) ratio min_sentences
    = Some (Z.of_nat (List.length (split_sentences text))) ->
  summarize_text pow text ratio min_sentences = Some (split_sentences text).
Proof.
  intros Hk. unfold summarize_text.
  destruct (Z.leb_spec (Z.of_nat (List.length (split_sentences text)))
              min_sentences) as [Hle|Hlt]; [reflexivity|].
  rewrite Hk. f_equal. unfold Py.slice_to.
  rewrite (proj2 (Z.leb_le 0 _) (Nat2Z.is_nonneg _)), Nat2Z.id.
  rewrite firstn_all2.
  - apply filter_all. intros s Hs. apply mem_In.
    apply (Permutation_in s
             (Permutation_map fst
                (sorted_desc_perm (sent_scores pow text (split_sentences text))))).
    now rewrite sent_scores_fst.
  - rewrite <- (Permutation_length
                  (sorted_desc_perm (sent_scores pow text (split_sentences text)))).
    unfold sent_scores. now rewrite length_map.
Qed.

Lemma summarize_text_keep_all_witness :
  keep_count (List.length (split_sentences "One. Two. Three.")) 1%float 1
    = Some (Z.of_nat (List.length (split_sentences "One. Two. Three.")))
  /\ summarize_text Sample.pow "One. Two. Three." 1%float 1
     = Some (split_sentences "One. Two. Three.").
Proof.
  assert (H : keep_count (List.length (split_sentences "One. Two. Three."))
                1%float 1
              = Some (Z.of_nat (List.length (split_sentences "One. Two. Three."))))
    by (vm_compute; reflexivity).
  split; [exact H|].
  exact (summarize_text_keep_all Sample.pow "One. Two. Three." 1%float 1 H).
Defined.

Lemma ceil_None (x : float) : Py.ceil x = None <-> Json.finite x = false.
Proof.
  unfold Py.ceil, Json.finite. destruct (Prim2SF x); split; congruence.
Qed.

(** X12: [summarize_text] raises in one situation only: the text has more
    sentences than [min_sentences] and their number times the ratio is a
    NaN or an infinity, which [math.ceil] refuses. *)
Theorem summarize_text_raises_iff (pow : float -> float -> float)
  (text : string) (ratio : float)
  (min_sentences : Z) :
  summarize_text pow text ratio min_sentences = None
  <-> (min_sentences < Z.of_nat (List.length (split_sentences text)))%Z
      /\ Json.finite
           (PrimFloat.mul
              (Py.float_of_int (Z.of_nat (List.length (split_sentences text))))
              ratio) = false.
Proof.
  unfold summarize_text, keep_count. rewrite <- ceil_None.
  destruct (Z.leb_spec (Z.of_nat (List.length (split_sentences text)))
              min_sentences) as [Hle|Hlt].
  - split; [discriminate | intros [H _]; lia].
  - destruct (Py.ceil _) as [c|]; split; try discriminate; auto.
    intros [_ H]. discriminate.
Qed.

(** ** Tokens *)

Lemma all_chars_ext (p q : ascii -> bool) (s : string) :
  (forall c, p c = q c) -> Shape.all_chars p s = Shape.all_chars q s.
Proof.
  intros E. induction s as [|c s IH]; simpl; [reflexivity|]. now rewrite E, IH.
Qed.

(** Every token is a non-empty run of characters of the class of its first
    character. *)
Lemma findall_tokens_uniform (s t : string) :
  In t (Re.findall_tokens s) ->
  t <> EmptyString
  /\ Shape.all_chars (fun c => Bool.eqb (Char.isword c) (Re.head_isword t)) t = true.
Proof.
  revert t. induction s as [|c r IH]; intros t; simpl; [contradiction|].
  destruct (Re.findall_tokens r) as [|u us] eqn:E.
  - intros [<-|[]]. simpl. split; [discriminate|].
    now rewrite Bool.eqb_reflx.
  - destruct (Bool.eqb (Char.isword c) (Re.head_isword u)) eqn:Ec.
    + intros [<-|Ht]; [|apply IH; now right].
      destruct (IH u (or_introl eq_refl)) as [_ Hu].
      split; [discriminate|]. simpl. rewrite Bool.eqb_reflx. simpl.
      apply Bool.eqb_prop in Ec. now rewrite Ec.
    + intros [<-|Ht]; [|apply IH; exact Ht].
      simpl. split; [discriminate|]. now rewrite Bool.eqb_reflx.
Qed.

Lemma after_word_prefix_all (t : string) :
  Shape.all_chars Char.isword t = true -> Re.after_word_prefix t = EmptyString.
Proof.
  induction t as [|c t IH]; simpl; [reflexivity|].
  intros H. apply andb_true_iff in H. destruct H as [-> H]. now apply IH.
Qed.

(** X13: [re.findall(r"\w+|\W+", s)] yields non-empty tokens of two kinds:
    runs of word characters, which are the tokens that the test of line 101
    accepts, and runs of other characters, which it rejects. *)
Theorem findall_tokens_kinds (s t : string) :
  In t (Re.findall_tokens s) ->
  t <> EmptyString
  /\ ((Shape.all_chars Char.isword t = true /\ Re.match_word t = true)
      \/ (Shape.all_chars (fun c => negb (Char.isword c)) t = true
          /\ Re.match_word t = false)).
Proof.
  intros H. destruct (findall_tokens_uniform s t H) as [Hne Hu].
  split; [exact Hne|]. unfold Re.match_word.
  destruct (Re.head_isword t) eqn:Eh.
  - left.
    assert (A : Shape.all_chars Char.isword t = true).
    { rewrite <- Hu. apply all_chars_ext. intros c. now destruct (Char.isword c). }
    split; [exact A|]. now rewrite (after_word_prefix_all t A).
  - right. split; [|reflexivity].
    rewrite <- Hu. apply all_chars_ext. intros c. now destruct (Char.isword c).
Qed.

Lemma findall_tokens_kinds_witness :
  In ", " (Re.findall_tokens "Well, yes")
  /\ ", " <> EmptyString
  /\ ((Shape.all_chars Char.isword ", " = true /\ Re.match_word ", " = true)
      \/ (Shape.all_chars (fun c => negb (Char.isword c)) ", " = true
          /\ Re.match_word ", " = false)).
Proof.
  assert (H : In ", " (Re.findall_tokens "Well, yes")) by (vm_compute; auto).
  split; [exact H|].
  exact (findall_tokens_kinds "Well, yes" ", " H).
Defined.

(** ** What a paraphrase keeps *)

Lemma mapM_Forall2 {A B : Type} (f : A -> Rand.M B) (R : A -> B -> Prop) :
  (forall a g, exists b g', f a g = (Some b, g') /\ R a b) ->
  forall l g, exists bs g', Rand.mapM f l g = (Some bs, g') /\ Forall2 R l bs.
Proof.
  intros Hf. induction l as [|a l IH]; intros g; simpl.
  - exists [], g. split; [reflexivity | constructor].
  - destruct (Hf a g) as (b & g1 & E1 & Rb).
    destruct (IH g1) as (bs & g2 & E2 & Rbs).
    exists (b :: bs), g2. unfold Rand.bind. rewrite E1, E2.
    split; [reflexivity | now constructor].
Qed.

(** X14: the paraphrase of a sentence is the concatenation of one new token
    per token of the sentence, and every token that does not start with a
    word character (white space, punctuation) is kept as it is, whatever
    the strength, the random source and WordNet. *)
Theorem paraphrase_sentence_keeps_others (wn : wordnet) (strength : float)
  (s : string) (g : Rand.rng) :
  exists new_tokens g',
    paraphrase_sentence wn strength s g = (Some (Str.concat new_tokens), g')
    /\ Forall2 (fun t t' => Re.head_isword t = false -> t' = t)
               (Re.findall_tokens s) new_tokens.
Proof.
  destruct (mapM_Forall2 (paraphrase_token wn strength)
              (fun t t' => Re.head_isword t = false -> t' = t)) with
    (l := Re.findall_tokens s) (g := g) as (ts & g' & E & F).
  - intros t g0. destruct (paraphrase_token_total wn strength t g0) as (t' & g1 & E).
    exists t', g1. split; [exact E|]. intros H.
    rewrite (paraphrase_token_other wn strength t g0 H) in E. congruence.
  - exists ts, g'. split; [|exact F].
    unfold paraphrase_sentence, Rand.bind. now rewrite E.
Qed.

(** ** Synonyms *)

(** X15: without WordNet, a word whose lower-case form is a key of the
    fallback thesaurus is answered with one of the synonyms listed under
    that key, at the cost of one random draw. *)
Theorem synonym_for_listed (wn : wordnet) (word : string)
  (syns : list string) (g : Rand.rng) :
  Spec.wordnet_unavailable wn word ->
  Dict.get FALLBACK_SYNS (Str.lower word) = Some syns ->
  exists s, synonym_for wn word g = (Some s, Rand.step g) /\ In s syns.
Proof.
  intros Hwn Hk. unfold synonym_for.
  rewrite (wordnet_synonym_unavailable _ _ Hwn), Hk.
  exact (choice_returns syns g (FALLBACK_SYNS_nonempty _ _ Hk)).
Qed.

Lemma synonym_for_listed_witness :
  Spec.wordnet_unavailable Sample.no_wordnet "Good"
  /\ Dict.get FALLBACK_SYNS (Str.lower "Good")
     = Some ["great"; "nice"; "excellent"; "solid"]
  /\ exists s,
       synonym_for Sample.no_wordnet "Good" Sample.rng
         = (Some s, Rand.step Sample.rng)
       /\ In s ["great"; "nice"; "excellent"; "solid"].
Proof.
  assert (H1 : Spec.wordnet_unavailable Sample.no_wordnet "Good")
    by (left; reflexivity).
  assert (H2 : Dict.get FALLBACK_SYNS (Str.lower "Good")
               = Some ["great"; "nice"; "excellent"; "solid"]) by reflexivity.
  split; [exact H1|]. split; [exact H2|].
  exact (synonym_for_listed Sample.no_wordnet "Good" _ Sample.rng H1 H2).
Defined.

Lemma find_first {A : Type} (f : A -> bool) (l : list A) (x : A) :
  List.find f l = Some x ->
  exists before after,
    l = before ++ x :: after
    /\ (forall y, In y before -> f y = false)
    /\ f x = true.
Proof.
  induction l as [|a l IH]; simpl; [discriminate|].
  destruct (f a) eqn:Fa.
  - intros [= <-]. exists [], l. repeat split; [intros y []|exact Fa].
  - intros H. destruct (IH H) as (before & after & -> & Hb & Hx).
    exists (a :: before), after. repeat split; [|exact Hx].
    intros y [<-|Hy]; [exact Fa | now apply Hb].
Qed.

Lemma other_single_token_spec (word name : string) :
  other_single_token word name = true
  <-> Str.lower name <> word /\ Str.contains " " name = false.
Proof.
  unfold other_single_token. rewrite andb_true_iff, !negb_true_iff.
  now rewrite String.eqb_neq.
Qed.

(** X16: when WordNet is in use and some lemma of the word's synsets passes
    the test of line 130 (its lower-case form is not the word and it holds
    no space, once its underscores are spaces), [synonym_for] returns the
    first lemma that passes it, in the order of the synsets and of their
    lemmas: every lemma before it has the word as its lower-case form or
    holds a space.  No random number is drawn, and for a word in lower case,
    as [paraphrase_text] passes it, the answer is not the word. *)
Theorem synonym_for_wordnet (wn : wordnet) (word raw : string)
  (syns : list (list string)) (g : Rand.rng) :
  USE_NLTK wn = true -> synsets wn word = Some syns ->
  In raw (List.concat syns) ->
  other_single_token word (lemma_name raw) = true ->
  exists before name after,
    synonym_for wn word g = (Some name, g)
    /\ List.map lemma_name (List.concat syns) = before ++ name :: after
    /\ (forall n, In n before ->
                  Str.lower n = word \/ Str.contains " " n = true)
    /\ Str.lower name <> word
    /\ Str.contains " " name = false
    /\ (Str.lower word = word -> name <> word).
Proof.
  intros Hu Hs Hin Hok. unfold synonym_for, wordnet_synonym. rewrite Hu, Hs.
  destruct (List.find (other_single_token word)
              (List.map lemma_name (List.concat syns))) as [name|] eqn:F.
  - destruct (find_first _ _ _ F) as (before & after & E & Hb & Hn).
    apply other_single_token_spec in Hn. destruct Hn as [Hl Hc].
    exists before, name, after. split; [reflexivity|]. split; [exact E|].
    split; [|split; [exact Hl|split; [exact Hc|]]].
    + intros n Hn. specialize (Hb n Hn).
      destruct (String.eqb_spec (Str.lower n) word) as [El|Nl]; [now left|].
      right. destruct (Str.contains " " n) eqn:C; [reflexivity|].
      assert (T : other_single_token word n = true)
        by (apply other_single_token_spec; now split).
      congruence.
    + intros Hw ->. now apply Hl.
  - exfalso. pose proof (find_none _ _ F (lemma_name raw)) as N.
    rewrite Hok in N. assert (T : true = false); [|discriminate].
    apply N. now apply in_map.
Qed.

(** ** Capital letters *)

Lemma upper_lower_isupper (c : ascii) :
  Char.isupper c = true ->
  Char.is_code 223 (Char.lower c) = false
  /\ Char.isupper (Char.upper (Char.lower c)) = true.
Proof.
  destruct c as [[] [] [] [] [] [] [] []]; vm_compute; intros H;
    first [discriminate H | split; reflexivity].
Qed.

Lemma capitalize_starts_upper (t cand : string) :
  starts_upper t = true -> Str.first cand = Str.first (Str.lower t) ->
  starts_upper (Str.capitalize cand) = true.
Proof.
  destruct t as [|c r]; simpl; [discriminate|]. intros Hc.
  destruct cand as [|d cand]; simpl; [discriminate|]. intros [= ->].
  destruct (upper_lower_isupper c Hc) as [-> H]. exact H.
Qed.

Lemma FALLBACK_SYNS_capitalize (k syn : string) (syns : list string) :
  Dict.get FALLBACK_SYNS k = Some syns -> In syn syns ->
  starts_upper (Str.capitalize syn) = true.
Proof.
  intros Hk Hin. apply get_In in Hk.
  assert (F : Forall (fun kv : string * list string =>
                        Forall (fun x => starts_upper (Str.capitalize x) = true)
                               (snd kv)) FALLBACK_SYNS)
    by (repeat constructor).
  rewrite Forall_forall in F. specialize (F _ Hk). simpl in F.
  rewrite Forall_forall in F. now apply F.
Qed.

Lemma first_substring (n : nat) (s : string) :
  Str.first (substring 0 (S n) s) = Str.first s.
Proof. destruct s; reflexivity. Qed.

Lemma first_drop_last (s : string) :
  (4 < String.length s)%nat -> Str.first (Str.drop_last 3 s) = Str.first s.
Proof.
  intros H. unfold Str.drop_last.
  replace (String.length s - 3)%nat with (S (String.length s - 4)) by lia.
  apply first_substring.
Qed.

(** X17: capitals are preserved (the comment of line 105) for tokens of
    code points up to U+00FF, the range of the texts modelled here: without
    WordNet, whatever [paraphrase_token] puts in the place of such a token
    that starts with an upper-case letter starts with an upper-case letter
    too. *)
Theorem paraphrase_token_keeps_capital (wn : wordnet) (strength : float)
  (t s : string) (g g' : Rand.rng) :
  Spec.wordnet_unavailable wn (Str.lower t) ->
  starts_upper t = true ->
  paraphrase_token wn strength t g = (Some s, g') ->
  starts_upper s = true.
Proof.
  intros Hwn Hup. unfold paraphrase_token.
  destruct (Re.match_word t); [|now intros [= <- _]].
  unfold Rand.bind at 1, Rand.random.
  destruct (PrimFloat.ltb _ strength); [|now intros [= <- _]].
  rewrite Hup. unfold Rand.bind, synonym_for.
  rewrite (wordnet_synonym_unavailable _ _ Hwn).
  destruct (Dict.get FALLBACK_SYNS (Str.lower (Str.lower t))) as [syns|] eqn:Hk.
  - destruct (choice_returns syns (Rand.step g) (FALLBACK_SYNS_nonempty _ _ Hk))
      as [a [E Ha]].
    rewrite E. intros [= <- _]. exact (FALLBACK_SYNS_capitalize _ _ _ Hk Ha).
  - destruct (Str.endswith (Str.lower t) "ing") eqn:He;
      destruct (4 <? String.length (Str.lower t))%nat eqn:Hl; simpl;
      intros [= <- _]; apply (capitalize_starts_upper t); try exact Hup;
      try reflexivity.
    apply first_drop_last. now apply Nat.ltb_lt.
Qed.

Lemma paraphrase_token_keeps_capital_witness :
  Spec.wordnet_unavailable Sample.no_wordnet (Str.lower "Running")
  /\ starts_upper "Running" = true
  /\ paraphrase_token Sample.no_wordnet 0.5%float "Running" Fixture.eager_rng
     = (Some "Runn", Rand.step Fixture.eager_rng)
  /\ starts_upper "Runn" = true.
Proof.
  assert (H1 : Spec.wordnet_unavailable Sample.no_wordnet (Str.lower "Running"))
    by (left; reflexivity).
  assert (H2 : starts_upper "Running" = true) by reflexivity.
  assert (H3 : paraphrase_token Sample.no_wordnet 0.5%float "Running"
                 Fixture.eager_rng
               = (Some "Runn", Rand.step Fixture.eager_rng))
    by (vm_compute; reflexivity).
  split; [exact H1|]. split; [exact H2|]. split; [exact H3|].
  exact (paraphrase_token_keeps_capital _ _ _ _ _ _ H1 H2 H3).
Defined.

Lemma synonym_for_wordnet_witness :
  USE_NLTK Fixture.wordnet = true
  /\ synsets Fixture.wordnet "good"
     = Some [["good"; "well_off"; "fine"]; ["nice"]]
  /\ In "fine" (List.concat [["good"; "well_off"; "fine"]; ["nice"]])
  /\ other_single_token "good" (lemma_name "fine") = true
  /\ exists before name after,
       synonym_for Fixture.wordnet "good" Sample.rng = (Some name, Sample.rng)
       /\ List.map lemma_name
                   (List.concat [["good"; "well_off"; "fine"]; ["nice"]])
          = before ++ name :: after
       /\ (forall n, In n before ->
                     Str.lower n = "good" \/ Str.contains " " n = true)
       /\ Str.lower name <> "good"
       /\ Str.contains " " name = false
       /\ (Str.lower "good" = "good" -> name <> "good").
Proof.
  assert (H1 : USE_NLTK Fixture.wordnet = true) by reflexivity.
  assert (H2 : synsets Fixture.wordnet "good"
               = Some [["good"; "well_off"; "fine"]; ["nice"]]) by reflexivity.
  assert (H3 : In "fine" (List.concat [["good"; "well_off"; "fine"]; ["nice"]]))
    by (simpl; auto).
  assert (H4 : other_single_token "good" (lemma_name "fine") = true)
    by reflexivity.
  repeat (split; [assumption|]).
  exact (synonym_for_wordnet Fixture.wordnet "good" "fine" _ Sample.rng
           H1 H2 H3 H4).
Defined.

(** ** The order of the paraphrased sentences *)

Lemma set_nth_perm {A : Type} (l : list A) (i : nat) (a b : A) :
  nth_error l i = Some b -> Permutation (b :: Rand.set_nth i a l) (a :: l).
Proof.
  revert i. induction l as [|x l IH]; intros [|i]; simpl; try discriminate.
  - intros [= ->]. apply perm_swap.
  - intros H. transitivity (x :: b :: Rand.set_nth i a l); [apply perm_swap|].
    transitivity (x :: a :: l); [apply perm_skip, IH, H | apply perm_swap].
Qed.

Lemma swap_perm {A : Type} (i j : nat) (x : list A) :
  Permutation (Rand.swap i j x) x.
Proof.
  unfold Rand.swap.
  destruct (nth_error x i) as [a|] eqn:Ei; [|reflexivity].
  destruct (nth_error x j) as [b|] eqn:Ej; [|reflexivity].
  revert i j Ei Ej. induction x as [|y x IH]; intros [|i] [|j]; simpl;
    try discriminate.
  - intros [= ->] [= ->]. reflexivity.
  - intros [= ->] Ej. exact (set_nth_perm x j a b Ej).
  - intros Ei [= ->]. exact (set_nth_perm x i b a Ei).
  - intros Ei Ej. apply perm_skip. now apply IH.
Qed.

Lemma shuffle_from_perm {A : Type} (i : nat) (x y : list A) (g g' : Rand.rng) :
  Rand.shuffle_from i x g = (Some y, g') -> Permutation x y.
Proof.
  revert x g. induction i as [|i IH]; intros x g; simpl.
  - now intros [= <- _].
  - unfold Rand.bind, Rand.randbelow. intros H. apply IH in H.
    now rewrite <- H, swap_perm.
Qed.

Lemma maybe_shuffle_perm (strength : float) (l y : list string)
  (g g' : Rand.rng) :
  maybe_shuffle strength l g = (Some y, g') -> Permutation l y.
Proof.
  unfold maybe_shuffle. destruct (1 <? List.length l)%nat.
  - unfold Rand.bind, Rand.random. destruct (PrimFloat.ltb _ _).
    + apply shuffle_from_perm.
    + now intros [= <- _].
  - now intros [= <- _].
Qed.

(** X18: the paraphrase of a text is made of one paraphrased sentence per
    sentence of the text, joined by single spaces, in some order: the
    reordering of line 118 neither drops nor repeats a sentence. *)
Theorem paraphrase_text_sentences (wn : wordnet) (text : string)
  (strength : float) (g : Rand.rng) :
  exists paraphrased reordered g',
    paraphrase_text wn text strength g = (Some (Str.join " " reordered), g')
    /\ Permutation paraphrased reordered
    /\ Forall2 (fun s p => exists g1 g2,
                    paraphrase_sentence wn strength s g1 = (Some p, g2))
               (split_sentences text) paraphrased.
Proof.
  destruct (mapM_Forall2 (paraphrase_sentence wn strength)
              (fun s p => exists g1 g2,
                   paraphrase_sentence wn strength s g1 = (Some p, g2))) with
    (l := split_sentences text) (g := g) as (ps & g1 & E1 & F).
  - intros s g0. destruct (paraphrase_sentence_total wn strength s g0)
      as (p & g1 & E).
    exists p, g1. split; [exact E|]. now exists g0, g1.
  - destruct (maybe_shuffle_total strength ps g1) as (qs & g2 & E2).
    exists ps, qs, g2. split; [|split; [|exact F]].
    + unfold paraphrase_text, Rand.bind. now rewrite E1, E2.
    + exact (maybe_shuffle_perm _ _ _ _ _ E2).
Qed.

(** ** Requests *)

(** X19: a request whose JSON body is a value that Python takes for false
    ([null], [false], [0], [0.0], an empty string, list or object) gets the
    error answer of both endpoints, as [request.json or {}] reads it as an
    empty object, and no random number is drawn. *)
Theorem endpoints_falsy_body (pow : float -> float -> float)
  (parse_float : string -> option float)
  (parse_int : string -> option Z) (wn : wordnet) (body : json)
  (g : Rand.rng) :
  Json.truthy body = false ->
  api_summarize pow parse_float parse_int body = NoText
  /\ api_paraphrase parse_float wn body g = (NoText, g).
Proof.
  intros H. unfold api_summarize, summarize_args, api_paraphrase,
    paraphrase_args, Json.data_of. rewrite H. split; reflexivity.
Qed.

Lemma endpoints_falsy_body_witness :
  Json.truthy (JArray []) = false
  /\ api_summarize Sample.pow Sample.parse_float Sample.parse_int (JArray []) = NoText
  /\ api_paraphrase Sample.parse_float Sample.no_wordnet (JArray []) Sample.rng
     = (NoText, Sample.rng).
Proof.
  assert (H : Json.truthy (JArray []) = false) by reflexivity.
  split; [exact H|].
  exact (endpoints_falsy_body Sample.pow Sample.parse_float Sample.parse_int
           Sample.no_wordnet (JArray []) Sample.rng H).
Defined.

(** X20: a body that Python takes for true and that is no JSON object (a
    number, a string, a list) makes both endpoints end in an uncaught
    exception: [data.get] does not exist. *)
Theorem endpoints_reject_non_object (pow : float -> float -> float)
  (parse_float : string -> option float)
  (parse_int : string -> option Z) (wn : wordnet) (body : json)
  (g : Rand.rng) :
  Json.truthy body = true -> (forall fields, body <> JObject fields) ->
  api_summarize pow parse_float parse_int body = Uncaught
  /\ api_paraphrase parse_float wn body g = (Uncaught, g).
Proof.
  intros H N. unfold api_summarize, summarize_args, api_paraphrase,
    paraphrase_args, Json.data_of. rewrite H.
  destruct body; try (split; reflexivity). now elim (N fields).
Qed.

Lemma endpoints_reject_non_object_witness :
  Json.truthy (JString "Hello.") = true
  /\ (forall fields, JString "Hello." <> JObject fields)
  /\ api_summarize Sample.pow Sample.parse_float Sample.parse_int (JString "Hello.")
     = Uncaught
  /\ api_paraphrase Sample.parse_float Sample.no_wordnet (JString "Hello.")
       Sample.rng = (Uncaught, Sample.rng).
Proof.
  assert (H : Json.truthy (JString "Hello.") = true) by reflexivity.
  assert (N : forall fields, JString "Hello." <> JObject fields)
    by (intros fields; discriminate).
  split; [exact H|]. split; [exact N|].
  exact (endpoints_reject_non_object Sample.pow Sample.parse_float Sample.parse_int
           Sample.no_wordnet (JString "Hello.") Sample.rng H N).
Defined.

(** X21: a ["text"] that is present and is no string (a number, [null], a
    list) makes both endpoints end in an uncaught exception, whatever the
    other fields are: the text is stripped before anything is tested. *)
Theorem endpoints_reject_non_string_text (pow : float -> float -> float)
  (parse_float : string -> option float)
  (parse_int : string -> option Z) (wn : wordnet)
  (fields : list (string * json)) (v : json) (g : Rand.rng) :
  Dict.get fields "text" = Some v -> (forall s, v <> JString s) ->
  api_summarize pow parse_float parse_int (JObject fields) = Uncaught
  /\ api_paraphrase parse_float wn (JObject fields) g = (Uncaught, g).
Proof.
  intros Hv N.
  assert (T : Json.truthy (JObject fields) = true)
    by (destruct fields; [discriminate Hv | reflexivity]).
  assert (S : obind (Json.get (Json.data_of (JObject fields)) "text" (JString ""))
                    Json.strip = None).
  { unfold Json.data_of. rewrite T. simpl. unfold Dict.get_default.
    rewrite Hv. destruct v; try reflexivity. now elim (N s). }
  unfold api_summarize, summarize_args, api_paraphrase, paraphrase_args.
  rewrite S. split; reflexivity.
Qed.

Lemma endpoints_reject_non_string_text_witness :
  Dict.get [("text", JInt 5)] "text" = Some (JInt 5)
  /\ (forall s, JInt 5 <> JString s)
  /\ api_summarize Sample.pow Sample.parse_float Sample.parse_int
       (JObject [("text", JInt 5)]) = Uncaught
  /\ api_paraphrase Sample.parse_float Sample.no_wordnet
       (JObject [("text", JInt 5)]) Sample.rng = (Uncaught, Sample.rng).
Proof.
  assert (H : Dict.get [("text", JInt 5)] "text" = Some (JInt 5)) by reflexivity.
  assert (N : forall s, JInt 5 <> JString s) by (intros s; discriminate).
  split; [exact H|]. split; [exact N|].
  exact (endpoints_reject_non_string_text Sample.pow Sample.parse_float Sample.parse_int
           Sample.no_wordnet _ _ Sample.rng H N).
Defined.

Lemma summarize_text_selection (pow : float -> float -> float)
  (text : string) (ratio : float)
  (min_sentences : Z) (summary : list string) :
  summarize_text pow text ratio min_sentences = Some summary ->
  subseq summary (split_sentences text).
Proof.
  unfold summarize_text.
  destruct (Z.of_nat (List.length (split_sentences text)) <=? min_sentences)%Z.
  - intros [= <-]. apply subseq_refl.
  - destruct (keep_count _ ratio min_sentences); [|discriminate].
    intros [= <-]. apply subseq_filter.
Qed.

(** X22: in an answer of [/summarize], the summary is the sentences joined
    by single spaces, the sentences are a selection of those of the
    stripped text of the request, and splitting the summary gives the
    sentences of the answer back. *)
Theorem api_summarize_answer (pow : float -> float -> float)
  (parse_float : string -> option float)
  (parse_int : string -> option Z) (body : json)
  (summary : string) (sentences : list string) :
  api_summarize pow parse_float parse_int body = Summary summary sentences ->
  summary = Str.join " " sentences
  /\ split_sentences summary = sentences
  /\ exists text,
       Spec.request_text body = Some text
       /\ subseq sentences (split_sentences text).
Proof.
  unfold api_summarize, summarize_args, Spec.request_text.
  destruct (obind (Json.get (Json.data_of body) "text" (JString "")) Json.strip)
    as [text|]; simpl; [|discriminate].
  destruct (obind (obind (Json.get (Json.data_of body) "ratio" _) _) _)
    as [[[text' ratio] m]|] eqn:E; [|discriminate].
  assert (text' = text).
  { destruct (obind (Json.get (Json.data_of body) "ratio" (JFloat default_ratio))
                (Json.to_float parse_float)); simpl in E; [|discriminate].
    destruct (obind (Json.get (Json.data_of body) "min_sentences"
                       (JInt default_min_sentences)) (Json.to_int parse_int));
      simpl in E; congruence. }
  subst text'. destruct (Str.is_empty text); [discriminate|].
  destruct (summarize_text pow text ratio m) as [l|] eqn:S; [|discriminate].
  intros [= <- <-]. apply summarize_text_selection in S.
  split; [reflexivity|]. split; [now apply (split_sentences_selection text)|].
  now exists text.
Qed.

Lemma api_summarize_answer_witness :
  api_summarize Sample.pow Sample.parse_float Sample.parse_int
    (JObject [("text", JString " The cat sat. The cat ran away. Dogs bark. ")])
  = Summary "The cat ran away." ["The cat ran away."]
  /\ "The cat ran away." = Str.join " " ["The cat ran away."]
  /\ split_sentences "The cat ran away." = ["The cat ran away."]
  /\ exists text,
       Spec.request_text
         (JObject [("text", JString " The cat sat. The cat ran away. Dogs bark. ")])
       = Some text
       /\ subseq ["The cat ran away."] (split_sentences text).
Proof.
  assert (H : api_summarize Sample.pow Sample.parse_float Sample.parse_int
                (JObject [("text",
                           JString " The cat sat. The cat ran away. Dogs bark. ")])
              = Summary "The cat ran away." ["The cat ran away."])
    by (vm_compute; reflexivity).
  split; [exact H|].
  exact (api_summarize_answer Sample.pow Sample.parse_float Sample.parse_int _ _ _ H).
Defined.

(** X23: a request that gives neither ["ratio"] nor ["min_sentences"] is
    answered like the request with the same text, the ratio 0.3 and the
    minimum 1. *)
Theorem api_summarize_defaults (pow : float -> float -> float)
  (parse_float : string -> option float)
  (parse_int : string -> option Z) (fields : list (string * json))
  (t : string) :
  Dict.get fields "text" = Some (JString t) ->
  Dict.get fields "ratio" = None ->
  Dict.get fields "min_sentences" = None ->
  api_summarize pow parse_float parse_int (JObject fields)
  = api_summarize pow parse_float parse_int
      (JObject [("text", JString t); ("ratio", JFloat default_ratio);
                ("min_sentences", JInt default_min_sentences)]).
Proof.
  intros Ht Hr Hm.
  assert (T : Json.truthy (JObject fields) = true)
    by (destruct fields; [discriminate Ht | reflexivity]).
  unfold api_summarize, summarize_args, Json.data_of. rewrite T.
  simpl Json.truthy. cbv iota. unfold Json.get, Dict.get_default.
  rewrite Ht, Hr, Hm. reflexivity.
Qed.

Lemma api_summarize_defaults_witness :
  Dict.get [("text", JString "One. Two. Three.")] "text"
    = Some (JString "One. Two. Three.")
  /\ Dict.get [("text", JString "One. Two. Three.")] "ratio" = None
  /\ Dict.get [("text", JString "One. Two. Three.")] "min_sentences" = None
  /\ api_summarize Sample.pow Sample.parse_float Sample.parse_int
       (JObject [("text", JString "One. Two. Three.")])
     = api_summarize Sample.pow Sample.parse_float Sample.parse_int
         (JObject [("text", JString "One. Two. Three.");
                   ("ratio", JFloat default_ratio);
                   ("min_sentences", JInt default_min_sentences)]).
Proof.
  assert (H1 : Dict.get [("text", JString "One. Two. Three.")] "text"
               = Some (JString "One. Two. Three.")) by reflexivity.
  assert (H2 : Dict.get [("text", JString "One. Two. Three.")] "ratio" = None)
    by reflexivity.
  assert (H3 : Dict.get [("text", JString "One. Two. Three.")] "min_sentences"
               = None) by reflexivity.
  repeat (split; [assumption|]).
  exact (api_summarize_defaults Sample.pow Sample.parse_float Sample.parse_int
           _ _ H1 H2 H3).
Defined.

(** ** Strength 0 twice *)

Lemma paraphrase_text_zero_join (wn : wordnet) (text : string) (g : Rand.rng) :
  Spec.never_negative g ->
  exists g',
    paraphrase_text wn text 0%float g
    = (Some (Str.join " " (split_sentences text)), g').
Proof.
  intros H. unfold paraphrase_text.
  destruct (mapM_pure Spec.never_negative (paraphrase_sentence wn 0%float)
              (fun s => s) (paraphrase_sentence_zero wn)
              (split_sentences text) g H) as [g1 [E1 H1]].
  rewrite map_id in E1.
  destruct (maybe_shuffle_zero (split_sentences text) g1 H1) as [g2 E2].
  exists g2. unfold Rand.bind. now rewrite E1, E2.
Qed.

(** X24: at strength 0 the paraphraser is a normalizer that has nothing left
    to do on its own output: paraphrasing the result again, with any random
    source that is never negative, returns it unchanged. *)
Theorem paraphrase_text_zero_idempotent (wn : wordnet) (text p : string)
  (g1 g2 : Rand.rng) :
  Spec.never_negative g1 -> Spec.never_negative g2 ->
  fst (paraphrase_text wn text 0%float g1) = Some p ->
  fst (paraphrase_text wn p 0%float g2) = Some p.
Proof.
  intros H1 H2 E.
  destruct (paraphrase_text_zero_join wn text g1 H1) as [g1' E1].
  rewrite E1 in E. simpl in E. injection E as <-.
  destruct (paraphrase_text_zero_join wn
              (Str.join " " (split_sentences text)) g2 H2) as [g2' E2].
  rewrite E2. simpl.
  now rewrite (split_sentences_selection text _ (subseq_refl _)).
Qed.

Lemma paraphrase_text_zero_idempotent_witness :
  Spec.never_negative Sample.rng
  /\ Spec.never_negative Fixture.eager_rng
  /\ fst (paraphrase_text Sample.no_wordnet "  A good idea.   Keep going! "
            0%float Sample.rng) = Some "A good idea. Keep going!"
  /\ fst (paraphrase_text Sample.no_wordnet "A good idea. Keep going!"
            0%float Fixture.eager_rng) = Some "A good idea. Keep going!".
Proof.
  assert (H2 : Spec.never_negative Fixture.eager_rng)
    by (intros i; reflexivity).
  assert (H3 : fst (paraphrase_text Sample.no_wordnet
                      "  A good idea.   Keep going! " 0%float Sample.rng)
               = Some "A good idea. Keep going!") by (vm_compute; reflexivity).
  split; [exact sample_rng_never_negative|]. split; [exact H2|].
  split; [exact H3|].
  exact (paraphrase_text_zero_idempotent Sample.no_wordnet _ _ _ _
           sample_rng_never_negative H2 H3).
Defined.

(** ** The minimum is honoured *)

(** X25: [min_sentences] is honoured: a summary has at least
    [min_sentences] sentences, or all the sentences of the text when there
    are fewer. *)
Theorem summarize_text_min_sentences (pow : float -> float -> float)
  (text : string) (ratio : float)
  (min_sentences : Z) (summary : list string) :
  (0 <= min_sentences)%Z ->
  summarize_text pow text ratio min_sentences = Some summary ->
  (Z.min min_sentences (Z.of_nat (List.length (split_sentences text)))
   <= Z.of_nat (List.length summary))%Z.
Proof.
  intros Hm H. unfold summarize_text in H.
  destruct (Z.leb_spec (Z.of_nat (List.length (split_sentences text)))
              min_sentences) as [Hle|Hlt].
  - injection H as <-. lia.
  - destruct (keep_count _ ratio min_sentences) as [k|] eqn:Hk; [|discriminate].
    injection H as <-.
    assert (Hkm : (min_sentences <= k)%Z).
    { unfold keep_count in Hk. destruct (Py.ceil _); [|discriminate].
      injection Hk as <-. lia. }
    pose proof (keep_count_le _ _ _ _ Hk) as Hkn.
    unfold Py.slice_to. rewrite (proj2 (Z.leb_le 0 k)) by lia.
    rewrite <- firstn_map.
    pose proof (filter_firstn_at_least (Z.to_nat k) (split_sentences text)
                  (List.map fst (Py.sorted_desc
                                   (sent_scores pow text (split_sentences text)))))
      as F.
    assert (Hperm : Permutation (split_sentences text)
              (List.map fst (Py.sorted_desc
                               (sent_scores pow text (split_sentences text))))).
    { rewrite <- (sent_scores_fst pow text (split_sentences text)) at 1.
      apply Permutation_map, sorted_desc_perm. }
    specialize (F Hperm ltac:(lia)). lia.
Qed.

Lemma summarize_text_min_sentences_witness :
  (0 <= 2)%Z
  /\ summarize_text Sample.pow "The cat sat. The cat ran away. Dogs bark." default_ratio 2
     = Some ["The cat sat."; "The cat ran away."]
  /\ (Z.min 2 (Z.of_nat (List.length
                           (split_sentences
                              "The cat sat. The cat ran away. Dogs bark.")))
      <= Z.of_nat (List.length ["The cat sat."; "The cat ran away."]))%Z.
Proof.
  assert (H1 : (0 <= 2)%Z) by lia.
  assert (H2 : summarize_text Sample.pow "The cat sat. The cat ran away. Dogs bark."
                 default_ratio 2 = Some ["The cat sat."; "The cat ran away."])
    by (vm_compute; reflexivity).
  split; [exact H1|]. split; [exact H2|].
  exact (summarize_text_min_sentences Sample.pow _ _ _ _ H1 H2).
Defined.

